(** * The encrypted secret value store of [pkg/storage/secret]

    A shallow embedding of the row codec ([toSecureValueRow], [toK8s]) and of
    the store operations ([Create], [Read], [List], [Decrypt], [get], and the
    unimplemented [Update], [Delete], [History]) of [store.go], in its most
    complete revision (the one that defines [toSecureValueRow]).

    Conventions of the embedding:
    - a Go [string] is a [string]; a [map[string]string] is a
      [gmap string string] and a [[]string] is a [list string] (Go's [len] and
      [range] do not tell a nil map or slice from an empty one, and neither
      does the model);
    - an [int64] of milliseconds is a [Z]; the code does no arithmetic on it;
    - a Go [(T, error)] result is a [result T]; a [panic] is the third
      constructor of [result];
    - the database, the keeper, the clock and the random sources are explicit:
      the table and the log of collaborator calls are threaded as a [World],
      the keeper is a record of functions, and the values read from the clock
      and the random sources during one call are an [Env]. *)

From Stdlib Require Import ZArith String Ascii List Bool Lia.
From stdpp Require Import base option list gmap strings.
Import ListNotations.

Local Open Scope string_scope.
Local Open Scope Z_scope.
Local Open Scope list_scope.

(** * Definitions *)

(** ** Errors and results *)

(** A Go [error] built by [fmt.Errorf] or handed up from a collaborator: its
    message. *)
Definition error := string.

Definition Errorf (msg : string) : error := msg.

Inductive result (A : Type) : Type :=
| Ok (a : A)
| Err (e : error)
| Panic (msg : string).

Arguments Ok {A} a.
Arguments Err {A} e.
Arguments Panic {A} msg.

(** Sequencing stops at the first error or panic: Go's
    [if err != nil { return nil, err }]. *)
#[global] Instance result_ret : MRet result := λ A a, Ok a.

#[global] Instance result_bind : MBind result := λ A B k r,
  match r with
  | Ok a => k a
  | Err e => Err e
  | Panic msg => Panic msg
  end.

Definition is_Ok {A} (r : result A) : bool :=
  match r with Ok _ => true | _ => false end.

(** Modelled from the spec: the error taxonomy of sections 4.3 and 7, which
    classifies errors by meaning (the code raises untyped [fmt.Errorf]
    errors). The messages are the literals of [store.go]. *)
Inductive ErrorClass :=
| Unauthenticated
| InvalidArgument
| NotFound
| Internal.

Definition error_class (e : error) : ErrorClass :=
  if String.eqb e "missing auth info in context" then Unauthenticated
  else if String.eqb e "missing name" then InvalidArgument
  else if String.eqb e "missing value" then InvalidArgument
  else if String.eqb e "not found" then NotFound
  else Internal.

(** ** Collaborators from outside the package *)

(** [strings.HasPrefix(s, prefix)]: whether [s] begins with [prefix]. *)
Definition HasPrefix (s prefix : string) : bool := String.prefix prefix s.

(** [encoding/json] at the two types the store serialises. [Marshal] cannot
    fail on a [map[string]string] or a [[]string], so it is total here;
    [Unmarshal] fails on text that is not JSON of the expected shape. The
    laws are the ones the codec relies on: decoding inverts encoding, and
    encoded text is never the empty string. *)
Class Json := {
  Marshal_map : gmap string string → string;
  Unmarshal_map : string → result (gmap string string);
  Marshal_list : list string → string;
  Unmarshal_list : string → result (list string);
  Unmarshal_Marshal_map : ∀ m, Unmarshal_map (Marshal_map m) = Ok m;
  Unmarshal_Marshal_list : ∀ l, Unmarshal_list (Marshal_list l) = Ok l;
  Marshal_map_nonempty : ∀ m, Marshal_map m ≠ "";
  Marshal_list_nonempty : ∀ l, Marshal_list l ≠ ""
}.

(** [time.Time] as nanoseconds since the Unix epoch. *)
Module time.
Definition Time := Z.

(** The method [t.UnixMilli()]. *)
Definition Time_UnixMilli (t : Time) : Z := t `div` 1000000.

(** The function [time.UnixMilli(msec)]. *)
Definition UnixMilli (msec : Z) : Time := msec * 1000000.
End time.

(** [metav1.NewTime] wraps a [time.Time]. *)
Module metav1.
Definition NewTime (t : time.Time) : time.Time := t.
End metav1.

(** ** The resource ([secret.SecureValue])

    The type is declared in [pkg/apis/secret/v0alpha1], outside the sources at
    hand; its fields are the ones [store.go] reads and writes. The embedded
    [metav1.ObjectMeta] is flattened into the record. *)
Module SecureValueSpec.
Record t := mk {
  Title : string;
  Value : string;
  APIs : list string
}.
End SecureValueSpec.

Module SecureValue.
(** Modelled from the spec: created-by, updated-by and the update timestamp
    are system metadata reached through [utils.MetaAccessor], which is not
    among the sources; section 4.2 has them travel "through the
    object-metadata side channel, not annotations", so they are fields of
    their own here, and [ResourceVersion] holds the [int64] that
    [SetResourceVersionInt64] is given. *)
Record t := mk {
  Name : string;
  Namespace : string;
  UID : string;
  CreationTimestamp : time.Time;
  ResourceVersion : option Z;
  Labels : gmap string string;
  Annotations : gmap string string;
  CreatedBy : string;
  UpdatedBy : string;
  UpdatedTimestamp : option time.Time;
  Spec : SecureValueSpec.t
}.

Definition with_CreationTimestamp (ts : time.Time) (v : t) : t :=
  mk (Name v) (Namespace v) (UID v) ts (ResourceVersion v) (Labels v)
     (Annotations v) (CreatedBy v) (UpdatedBy v) (UpdatedTimestamp v) (Spec v).

Definition with_UID (uid : string) (v : t) : t :=
  mk (Name v) (Namespace v) uid (CreationTimestamp v) (ResourceVersion v)
     (Labels v) (Annotations v) (CreatedBy v) (UpdatedBy v)
     (UpdatedTimestamp v) (Spec v).

Definition with_Labels (m : gmap string string) (v : t) : t :=
  mk (Name v) (Namespace v) (UID v) (CreationTimestamp v) (ResourceVersion v)
     m (Annotations v) (CreatedBy v) (UpdatedBy v) (UpdatedTimestamp v)
     (Spec v).

Definition with_Annotations (m : gmap string string) (v : t) : t :=
  mk (Name v) (Namespace v) (UID v) (CreationTimestamp v) (ResourceVersion v)
     (Labels v) m (CreatedBy v) (UpdatedBy v) (UpdatedTimestamp v) (Spec v).

Definition with_Spec (s : SecureValueSpec.t) (v : t) : t :=
  mk (Name v) (Namespace v) (UID v) (CreationTimestamp v) (ResourceVersion v)
     (Labels v) (Annotations v) (CreatedBy v) (UpdatedBy v)
     (UpdatedTimestamp v) s.

(** [val.Spec.APIs = apis] and [val.Spec.Value = s]. *)
Definition with_APIs (apis : list string) (v : t) : t :=
  with_Spec (SecureValueSpec.mk (SecureValueSpec.Title (Spec v))
               (SecureValueSpec.Value (Spec v)) apis) v.

Definition with_Value (s : string) (v : t) : t :=
  with_Spec (SecureValueSpec.mk (SecureValueSpec.Title (Spec v)) s
               (SecureValueSpec.APIs (Spec v))) v.
End SecureValue.

(** Modelled from the spec: the accessor of [utils.MetaAccessor] (package
    [pkg/apimachinery/utils], not among the sources), as section 4.2
    describes its use: getters and setters of created-by, updated-by, the
    update timestamp and the resource version of one object. *)
Module utils.
Import SecureValue.

Definition GetCreationTimestamp (v : t) : time.Time := CreationTimestamp v.
Definition GetCreatedBy (v : t) : string := CreatedBy v.
Definition GetUpdatedBy (v : t) : string := UpdatedBy v.
Definition GetUpdatedTimestamp (v : t) : option time.Time := UpdatedTimestamp v.

Definition SetCreatedBy (user : string) (v : t) : t :=
  mk (Name v) (Namespace v) (UID v) (CreationTimestamp v) (ResourceVersion v)
     (Labels v) (Annotations v) user (UpdatedBy v) (UpdatedTimestamp v)
     (Spec v).

Definition SetUpdatedBy (user : string) (v : t) : t :=
  mk (Name v) (Namespace v) (UID v) (CreationTimestamp v) (ResourceVersion v)
     (Labels v) (Annotations v) (CreatedBy v) user (UpdatedTimestamp v)
     (Spec v).

Definition SetUpdatedTimestampMillis (msec : Z) (v : t) : t :=
  mk (Name v) (Namespace v) (UID v) (CreationTimestamp v) (ResourceVersion v)
     (Labels v) (Annotations v) (CreatedBy v) (UpdatedBy v)
     (Some (time.UnixMilli msec)) (Spec v).

Definition SetResourceVersionInt64 (rv : Z) (v : t) : t :=
  mk (Name v) (Namespace v) (UID v) (CreationTimestamp v) (Some rv)
     (Labels v) (Annotations v) (CreatedBy v) (UpdatedBy v)
     (UpdatedTimestamp v) (Spec v).
End utils.

(** ** The persisted row ([secureValueRow]) *)
Module secureValueRow.
Record t := mk {
  UID : string;
  Namespace : string;
  Name : string;
  Title : string;
  Salt : string;
  Value : string;
  Keeper : string;
  Addr : string;
  Created : Z;
  CreatedBy : string;
  Updated : Z;
  UpdatedBy : string;
  Annotations : string;
  Labels : string;
  APIs : string
}.

(** The zero value [secureValueRow{}]. *)
Definition zero : t := mk "" "" "" "" "" "" "" "" 0 "" 0 "" "" "" "".

Definition with_CreatedBy (s : string) (r : t) : t :=
  mk (UID r) (Namespace r) (Name r) (Title r) (Salt r) (Value r) (Keeper r)
     (Addr r) (Created r) s (Updated r) (UpdatedBy r) (Annotations r)
     (Labels r) (APIs r).

Definition with_UpdatedBy (s : string) (r : t) : t :=
  mk (UID r) (Namespace r) (Name r) (Title r) (Salt r) (Value r) (Keeper r)
     (Addr r) (Created r) (CreatedBy r) (Updated r) s (Annotations r)
     (Labels r) (APIs r).

Definition with_Salt (s : string) (r : t) : t :=
  mk (UID r) (Namespace r) (Name r) (Title r) s (Value r) (Keeper r)
     (Addr r) (Created r) (CreatedBy r) (Updated r) (UpdatedBy r)
     (Annotations r) (Labels r) (APIs r).

Definition with_Value (s : string) (r : t) : t :=
  mk (UID r) (Namespace r) (Name r) (Title r) (Salt r) s (Keeper r)
     (Addr r) (Created r) (CreatedBy r) (Updated r) (UpdatedBy r)
     (Annotations r) (Labels r) (APIs r).
End secureValueRow.

(** ** The row codec *)

(** The annotations that [toSecureValueRow] copies into [anno]: the loop
    keeps [k] unless [strings.HasPrefix("grafana.app/", k)], that is, unless
    the literal begins with the key. *)
Definition keep_annotation (kv : string * string) : Prop :=
  HasPrefix "grafana.app/" kv.1 = false.

#[global] Instance keep_annotation_dec kv : Decision (keep_annotation kv).
Proof. unfold keep_annotation. apply _. Defined.

Section Codec.
Context `{Json}.

(** [toSecureValueRow]. [uid] is the string that [uuid.NewString()] returns
    during the call. [utils.MetaAccessor] does not fail on a [*SecureValue],
    and [json.Marshal] does not fail on these types, so the result is
    always [Ok]. *)
Definition toSecureValueRow (uid : string) (v : SecureValue.t)
  : result secureValueRow.t :=
  let Created := time.Time_UnixMilli (utils.GetCreationTimestamp v) in
  let Updated :=
    match utils.GetUpdatedTimestamp v with
    | Some t => time.Time_UnixMilli t
    | None => Created
    end in
  let Labels :=
    if bool_decide (0 < size (SecureValue.Labels v))%nat
    then Marshal_map (SecureValue.Labels v) else "" in
  let APIs :=
    if bool_decide (0 < length (SecureValueSpec.APIs (SecureValue.Spec v)))%nat
    then Marshal_list (SecureValueSpec.APIs (SecureValue.Spec v)) else "" in
  let Annotations :=
    if bool_decide (0 < size (SecureValue.Annotations v))%nat
    then Marshal_map (filter keep_annotation (SecureValue.Annotations v))
    else "" in
  Ok {| secureValueRow.UID := uid;
        secureValueRow.Namespace := SecureValue.Namespace v;
        secureValueRow.Name := SecureValue.Name v;
        secureValueRow.Title := SecureValueSpec.Title (SecureValue.Spec v);
        secureValueRow.Salt := "";
        secureValueRow.Value := SecureValueSpec.Value (SecureValue.Spec v);
        secureValueRow.Keeper := "";
        secureValueRow.Addr := "";
        secureValueRow.Created := Created;
        secureValueRow.CreatedBy := utils.GetCreatedBy v;
        secureValueRow.Updated := Updated;
        secureValueRow.UpdatedBy := utils.GetUpdatedBy v;
        secureValueRow.Annotations := Annotations;
        secureValueRow.Labels := Labels;
        secureValueRow.APIs := APIs |}.

(** The object [toK8s] starts from: name, namespace, UID, creation time, an
    empty label map and the title. *)
Definition toK8s_init (v : secureValueRow.t) : SecureValue.t :=
  {| SecureValue.Name := secureValueRow.Name v;
     SecureValue.Namespace := secureValueRow.Namespace v;
     SecureValue.UID := secureValueRow.UID v;
     SecureValue.CreationTimestamp :=
       metav1.NewTime (time.UnixMilli (secureValueRow.Created v));
     SecureValue.ResourceVersion := None;
     SecureValue.Labels := ∅;
     SecureValue.Annotations := ∅;
     SecureValue.CreatedBy := "";
     SecureValue.UpdatedBy := "";
     SecureValue.UpdatedTimestamp := None;
     SecureValue.Spec :=
       {| SecureValueSpec.Title := secureValueRow.Title v;
          SecureValueSpec.Value := "";
          SecureValueSpec.APIs := [] |} |}.

(** [secureValueRow.toK8s]: the three blobs are decoded in the order APIs,
    annotations, labels, each only when its column is not empty; the first
    decoding error is returned. *)
Definition toK8s (v : secureValueRow.t) : result SecureValue.t :=
  let val := toK8s_init v in
  val ← (if bool_decide (secureValueRow.APIs v ≠ "")
         then apis ← Unmarshal_list (secureValueRow.APIs v);
              Ok (SecureValue.with_APIs apis val)
         else Ok val);
  val ← (if bool_decide (secureValueRow.Annotations v ≠ "")
         then anno ← Unmarshal_map (secureValueRow.Annotations v);
              Ok (SecureValue.with_Annotations anno val)
         else Ok val);
  val ← (if bool_decide (secureValueRow.Labels v ≠ "")
         then labels ← Unmarshal_map (secureValueRow.Labels v);
              Ok (SecureValue.with_Labels labels val)
         else Ok val);
  let val := utils.SetCreatedBy (secureValueRow.CreatedBy v) val in
  let val :=
    if bool_decide (secureValueRow.Updated v ≠ secureValueRow.Created v)
    then utils.SetUpdatedTimestampMillis (secureValueRow.Updated v)
           (utils.SetUpdatedBy (secureValueRow.UpdatedBy v) val)
    else val in
  Ok (utils.SetResourceVersionInt64 (secureValueRow.Updated v) val).

(** What [toK8s] reads from a column: the decoded text, or the zero value
when the column is empty. *)
Definition column_list (s : string) : result (list string) :=
if bool_decide (s ≠ "") then Unmarshal_list s else Ok [].

Definition column_map (s : string) : result (gmap string string) :=
if bool_decide (s ≠ "") then Unmarshal_map s else Ok ∅.

Definition columns_decode (v : secureValueRow.t) : Prop :=
is_Ok (column_list (secureValueRow.APIs v))
∧ is_Ok (column_map (secureValueRow.Annotations v))
∧ is_Ok (column_map (secureValueRow.Labels v)).

(** The object [toK8s] answers once the three columns are decoded. *)
Definition decoded (v : secureValueRow.t) (apis : list string)
  (anno labels : gmap string string) : SecureValue.t :=
let updated :=
  bool_decide (secureValueRow.Updated v ≠ secureValueRow.Created v) in
{| SecureValue.Name := secureValueRow.Name v;
   SecureValue.Namespace := secureValueRow.Namespace v;
   SecureValue.UID := secureValueRow.UID v;
   SecureValue.CreationTimestamp :=
     metav1.NewTime (time.UnixMilli (secureValueRow.Created v));
   SecureValue.ResourceVersion := Some (secureValueRow.Updated v);
   SecureValue.Labels := labels;
   SecureValue.Annotations := anno;
   SecureValue.CreatedBy := secureValueRow.CreatedBy v;
   SecureValue.UpdatedBy := if updated then secureValueRow.UpdatedBy v else "";
   SecureValue.UpdatedTimestamp :=
     if updated then Some (time.UnixMilli (secureValueRow.Updated v))
     else None;
   SecureValue.Spec :=
     {| SecureValueSpec.Title := secureValueRow.Title v;
        SecureValueSpec.Value := "";
        SecureValueSpec.APIs := apis |} |}.

End Codec.

(** A resource that carries only a name, a namespace and annotations. *)
Definition annotated (anno : gmap string string) : SecureValue.t :=
{| SecureValue.Name := "db-pass";
   SecureValue.Namespace := "ns";
   SecureValue.UID := "";
   SecureValue.CreationTimestamp := 0;
   SecureValue.ResourceVersion := None;
   SecureValue.Labels := ∅;
   SecureValue.Annotations := anno;
   SecureValue.CreatedBy := "";
   SecureValue.UpdatedBy := "";
   SecureValue.UpdatedTimestamp := None;
   SecureValue.Spec :=
     {| SecureValueSpec.Title := "";
        SecureValueSpec.Value := "";
        SecureValueSpec.APIs := [] |} |}.

(** ** The keeper, the caller's context and the label selector *)

(** [SaltyValue] and the [SecretKeeper] interface are declared in the
    package's keeper file, outside the sources at hand; the fields and the two
    methods are the ones [store.go] uses. A keeper is taken as a pair of
    functions. *)
Module SaltyValue.
Record t := mk {
  Value : string;
  Salt : string;
  Keeper : string;
  Addr : string
}.
End SaltyValue.

Record SecretKeeper := {
  Encode : SaltyValue.t → result string;
  Decode : SaltyValue.t → result string
}.

(** [claims.From(ctx)] of [github.com/grafana/authlib/claims]: the identity
    carried by the context, if any. *)
Module claims.
Record AuthInfo := { GetUID : string }.

Record Context := { authInfo : option AuthInfo }.

Definition From (ctx : Context) : option AuthInfo := authInfo ctx.
End claims.

(** [labels.Selector] of [k8s.io/apimachinery] is an interface; the store
    only calls [Matches]. *)
Module labels.
Record Selector := { Matches : gmap string string → bool }.

Definition Everything : Selector := {| Matches := λ _, true |}.

(** [labels.SelectorFromSet]: every pair of the set is a label. *)
Definition SelectorFromSet (set : gmap string string) : Selector :=
  {| Matches := λ ls,
       bool_decide (map_Forall (λ k v, ls !! k = Some v) set) |}.
End labels.

(** [internalversion.ListOptions]; a nil [LabelSelector] is [None]. *)
Module internalversion.
Record ListOptions := { LabelSelector : option labels.Selector }.
End internalversion.

(** ** The world a store operation runs in *)

(** What one call reads from the clock and the random sources: [time.Now()],
    [uuid.NewString()] and [util.GetRandomString(n)]. *)
Record Env := {
  Now : time.Time;
  NewString : string;
  GetRandomString : nat → result string
}.

(** The calls a store operation makes to its collaborators, in order. [Exec]
    stands for the insert statement, [Query] for the list statement; [Printf]
    records the format string of a [fmt.Printf]. *)
Inductive Call :=
| CallGetRandomString (n : nat)
| CallEncode (v : SaltyValue.t)
| CallDecode (v : SaltyValue.t)
| CallExec (row : secureValueRow.t)
| CallQuery (req : secureValueRow.t)
| CallPrintf (format : string).

Record World := {
  table : list secureValueRow.t;
  calls : list Call
}.

(** A store operation: it ends in a value, an error or a panic, and leaves a
    world behind in each case. *)
Definition M (A : Type) : Type := World → result A * World.

#[global] Instance M_ret : MRet M := λ A a w, (Ok a, w).

#[global] Instance M_bind : MBind M := λ A B k m w,
  match m w with
  | (Ok a, w') => k a w'
  | (Err e, w') => (Err e, w')
  | (Panic msg, w') => (Panic msg, w')
  end.

Definition lift {A} (r : result A) : M A := λ w, (r, w).

Definition call (c : Call) : M unit := λ w,
  (Ok (), {| table := table w; calls := calls w ++ [c] |}).

Definition Printf (format : string) : M unit := call (CallPrintf format).

(** ** The statements *)

(** Modelled from the spec: [secure_value_insert.sql] and the schema are not
    among the sources. Section 3 has a SecureValue "uniquely identified by
    (namespace, name)" and section 6 "one row per SecureValue": the insert
    appends the row, and is refused when the table holds a row of the same
    namespace and name. *)
Definition same_key (a b : secureValueRow.t) : bool :=
  String.eqb (secureValueRow.Namespace a) (secureValueRow.Namespace b)
  && String.eqb (secureValueRow.Name a) (secureValueRow.Name b).

Definition sqlSecureValueInsert (row : secureValueRow.t)
    (tbl : list secureValueRow.t) : result (list secureValueRow.t) :=
  if existsb (same_key row) tbl
  then Err (Errorf "UNIQUE constraint failed: secure_value.namespace, secure_value.name")
  else Ok (tbl ++ [row]).

(** Modelled from the spec: [secure_value_list.sql] is not among the sources.
    [List] renders it with only the namespace set and, by section 4.3,
    "fetches all rows for the namespace"; [get] renders the same template with
    the name set as well and "looks up exactly one row by (namespace, name)".
    So the statement selects on the namespace, and on the name when the
    request has one, in the table's order. *)
Definition selected (req r : secureValueRow.t) : bool :=
  String.eqb (secureValueRow.Namespace r) (secureValueRow.Namespace req)
  && (String.eqb (secureValueRow.Name req) ""
      || String.eqb (secureValueRow.Name r) (secureValueRow.Name req)).

Definition sqlSecureValueList (req : secureValueRow.t)
    (tbl : list secureValueRow.t) : list secureValueRow.t :=
  List.filter (selected req) tbl.

(** [s.db.GetSqlxSession().Exec(ctx, q, req.GetArgs()...)] for the insert. *)
Definition Exec (row : secureValueRow.t) : M unit := λ w,
  let log := calls w ++ [CallExec row] in
  match sqlSecureValueInsert row (table w) with
  | Ok tbl => (Ok (), {| table := tbl; calls := log |})
  | Err e => (Err e, {| table := table w; calls := log |})
  | Panic msg => (Panic msg, {| table := table w; calls := log |})
  end.

(** [s.db.GetSqlxSession().Query(ctx, q, req.GetArgs()...)] for the list. *)
Definition Query (req : secureValueRow.t) : M (list secureValueRow.t) := λ w,
  (Ok (sqlSecureValueList req (table w)),
   {| table := table w; calls := calls w ++ [CallQuery req] |}).

(** The request row [secureValueRow{Namespace: ns, Name: name}]. *)
Definition request (ns name : string) : secureValueRow.t :=
  secureValueRow.mk "" ns name "" "" "" "" "" 0 "" 0 "" "" "" "".

(** ** The store *)

Record secureStore := { keeper : SecretKeeper }.

Section Store.
Context `{Json}.
Variable s : secureStore.

Definition keeper_Encode (v : SaltyValue.t) : M string := λ w,
  (Encode (keeper s) v,
   {| table := table w; calls := calls w ++ [CallEncode v] |}).

Definition keeper_Decode (v : SaltyValue.t) : M string := λ w,
  (Decode (keeper s) v,
   {| table := table w; calls := calls w ++ [CallDecode v] |}).

Definition util_GetRandomString (env : Env) (n : nat) : M string := λ w,
  (GetRandomString env n,
   {| table := table w; calls := calls w ++ [CallGetRandomString n] |}).

(** [Create] from the call of [toSecureValueRow] on: the row is built,
    stamped with the caller's UID, salted, its value encoded, inserted, and
    decoded for the answer. The insert template is rendered without error
    (its [Validate] returns nil). *)
Definition Create_row (env : Env) (authInfo : claims.AuthInfo)
    (v : SecureValue.t) : M SecureValue.t :=
  row ← lift (toSecureValueRow (NewString env) v);
  let row := secureValueRow.with_CreatedBy (claims.GetUID authInfo) row in
  let row := secureValueRow.with_UpdatedBy (claims.GetUID authInfo) row in
  salt ← util_GetRandomString env 10;
  let row := secureValueRow.with_Salt salt row in
  value ← keeper_Encode
    {| SaltyValue.Value := SecureValueSpec.Value (SecureValue.Spec v);
       SaltyValue.Salt := secureValueRow.Salt row;
       SaltyValue.Keeper := "";
       SaltyValue.Addr := "" |};
  let row := secureValueRow.with_Value value row in
  _ ← Printf "CREATE: %s\n";
  _ ← Exec row;
  lift (toK8s row).

(** [secureStore.Create]. The second component of the answer is the
    caller's object [*v] as the call leaves it: the only assignment to it is
    [v.CreationTimestamp = metav1.NewTime(time.Now())], after the three
    checks. *)
Definition Create (env : Env) (ctx : claims.Context) (v : SecureValue.t)
  : World → result SecureValue.t * SecureValue.t * World := λ w,
  match claims.From ctx with
  | None => (Err (Errorf "missing auth info in context"), v, w)
  | Some authInfo =>
    if bool_decide (SecureValue.Name v = "")
    then (Err (Errorf "missing name"), v, w)
    else if bool_decide (SecureValueSpec.Value (SecureValue.Spec v) = "")
    then (Err (Errorf "missing value"), v, w)
    else
      let v := SecureValue.with_CreationTimestamp
                 (metav1.NewTime (Now env)) v in
      let '(r, w') := Create_row env authInfo v w in
      (r, v, w')
  end.

(** [secureStore.get]: the first row of the query, or "not found". *)
Definition get (ctx : claims.Context) (ns name : string)
  : M secureValueRow.t :=
  rows ← Query (request ns name);
  match rows with
  | row :: _ => mret row
  | [] => lift (Err (Errorf "not found"))
  end.

(** [secureStore.Read]. *)
Definition Read (ctx : claims.Context) (ns name : string)
  : M SecureValue.t :=
  v ← get ctx ns name;
  lift (toK8s v).

(** [secureStore.Update], [secureStore.Delete], [secureStore.History]. *)
Definition Update (ctx : claims.Context) (v : SecureValue.t)
  : M SecureValue.t :=
  lift (Panic "unimplemented").

Definition Delete (ctx : claims.Context) (ns name : string)
  : M (SecureValue.t * bool) :=
  lift (Panic "unimplemented").

Definition History (ctx : claims.Context) (ns name continueToken : string)
  : M unit :=
  lift (Panic "unimplemented").

(** The loop of [List] over the rows of the query: each row is decoded, a
    decoding error ends the call, and the object is appended when the
    selector matches its labels. *)
Fixpoint List_loop (selector : labels.Selector)
    (rows : list secureValueRow.t) (items : list SecureValue.t)
  : result (list SecureValue.t) :=
  match rows with
  | [] => Ok items
  | row :: rows =>
    obj ← toK8s row;
    List_loop selector rows
      (if labels.Matches selector (SecureValue.Labels obj)
       then items ++ [obj] else items)
  end.

(** [secureStore.List]; the answer is the [Items] of the list. [options] is
    a pointer, dereferenced before the query is sent. *)
Definition List (ctx : claims.Context) (ns : string)
    (options : option internalversion.ListOptions)
  : M (list SecureValue.t) :=
  match options with
  | None => lift (Panic "invalid memory address or nil pointer dereference")
  | Some options =>
    let selector :=
      match internalversion.LabelSelector options with
      | Some selector => selector
      | None => labels.Everything
      end in
    rows ← Query (request ns "");
    lift (List_loop selector rows [])
  end.

(** [secureStore.Decrypt]: the authorized APIs of the row are printed, not
    checked; the value is whatever the keeper decodes. *)
Definition Decrypt (ctx : claims.Context) (ns name : string)
  : M SecureValue.t :=
  row ← get ctx ns name;
  _ ← (if bool_decide (secureValueRow.APIs row ≠ "")
       then Printf "MAKE SURE ctx is an app that can read: %s\n"
       else mret ());
  v ← lift (toK8s row);
  value ← keeper_Decode
    {| SaltyValue.Value := secureValueRow.Value row;
       SaltyValue.Salt := secureValueRow.Salt row;
       SaltyValue.Keeper := secureValueRow.Keeper row;
       SaltyValue.Addr := secureValueRow.Addr row |};
  mret (SecureValue.with_Value value v).

(** The value handed to the keeper by [Create], and the row it inserts. *)
Definition salty (v : SecureValue.t) (salt : string) : SaltyValue.t :=
{| SaltyValue.Value := SecureValueSpec.Value (SecureValue.Spec v);
   SaltyValue.Salt := salt;
   SaltyValue.Keeper := "";
   SaltyValue.Addr := "" |}.

Definition created_row (uid : string) (a : claims.AuthInfo)
  (v : SecureValue.t) (salt value : string) : secureValueRow.t :=
match toSecureValueRow uid v with
| Ok row =>
  secureValueRow.with_Value value
    (secureValueRow.with_Salt salt
       (secureValueRow.with_UpdatedBy (claims.GetUID a)
          (secureValueRow.with_CreatedBy (claims.GetUID a) row)))
| _ => secureValueRow.zero
end.

Definition logged (w : World) (cs : list Call) : World :=
{| table := table w; calls := calls w ++ cs |}.

(** The three checks at the head of [Create]. *)
Definition validated (ctx : claims.Context) (v : SecureValue.t) : Prop :=
is_Some (claims.From ctx)
∧ SecureValue.Name v ≠ ""
∧ SecureValueSpec.Value (SecureValue.Spec v) ≠ "".

(** The law of section 4.1 for the values [Create] encodes: decoding with the
same salt gives the plaintext back. *)
Definition keeper_roundtrip (k : SecretKeeper) : Prop :=
∀ plaintext salt encoded,
  Encode k (SaltyValue.mk plaintext salt "" "") = Ok encoded →
  Decode k (SaltyValue.mk encoded salt "" "") = Ok plaintext.

(** The value [Decrypt] hands to the keeper for a row. *)
Definition stored (row : secureValueRow.t) : SaltyValue.t :=
{| SaltyValue.Value := secureValueRow.Value row;
   SaltyValue.Salt := secureValueRow.Salt row;
   SaltyValue.Keeper := secureValueRow.Keeper row;
   SaltyValue.Addr := secureValueRow.Addr row |}.

(** [List] in the words of section 4.3: the rows of the namespace, in the
order of the table, each decoded, and the objects kept whose labels the
selector matches; no selector keeps them all. The first row that does not
decode makes the whole call fail. *)
Definition matches (selector : option labels.Selector) (obj : SecureValue.t)
  : bool :=
match selector with
| Some selector => labels.Matches selector (SecureValue.Labels obj)
| None => true
end.

Definition rows_of_namespace (ns : string) (tbl : list secureValueRow.t)
  : list secureValueRow.t :=
List.filter (λ r, String.eqb (secureValueRow.Namespace r) ns) tbl.

Definition List_spec (ns : string) (selector : option labels.Selector)
  (tbl : list secureValueRow.t) : result (list SecureValue.t) :=
objs ← mapM toK8s (rows_of_namespace ns tbl);
Ok (List.filter (matches selector) objs).

End Store.

(** ** The earlier revision of the store

    The revision of [store.go] before [toSecureValueRow] existed: [Create]
    builds the row itself, generates a name when there is none, checks no
    value and calls no keeper; [List] is a stub and [get] fails. It is kept
    next to the current revision to tell the two apart. *)

Module earlier.

(** The clock and the random sources of one call; [GenerateShortUID k] is
the answer to the call number [k] of [util.GenerateShortUID()]. *)
Record Env := {
  Now : time.Time;
  NewString : string;
  GenerateShortUID : nat → string
}.

Section Store.
Context `{Json}.

Definition Create_row (env : Env) (authInfo : claims.AuthInfo)
  (v : SecureValue.t) : secureValueRow.t :=
let now := time.Time_UnixMilli (Now env) in
{| secureValueRow.UID := NewString env;
   secureValueRow.Namespace := SecureValue.Namespace v;
   secureValueRow.Name :=
     if bool_decide (SecureValue.Name v = "")
     then GenerateShortUID env 1 else SecureValue.Name v;
   secureValueRow.Title := SecureValueSpec.Title (SecureValue.Spec v);
   secureValueRow.Salt := GenerateShortUID env 0;
   secureValueRow.Value := SecureValueSpec.Value (SecureValue.Spec v);
   secureValueRow.Keeper := "";
   secureValueRow.Addr := "";
   secureValueRow.Created := now;
   secureValueRow.CreatedBy := claims.GetUID authInfo;
   secureValueRow.Updated := now;
   secureValueRow.UpdatedBy := claims.GetUID authInfo;
   secureValueRow.Annotations :=
     if bool_decide (0 < size (SecureValue.Annotations v))%nat
     then Marshal_map (SecureValue.Annotations v) else "";
   secureValueRow.Labels :=
     if bool_decide (0 < size (SecureValue.Labels v))%nat
     then Marshal_map (SecureValue.Labels v) else "";
   secureValueRow.APIs :=
     if bool_decide
          (0 < length (SecureValueSpec.APIs (SecureValue.Spec v)))%nat
     then Marshal_list (SecureValueSpec.APIs (SecureValue.Spec v))
     else "" |}.

(** [secureStore.Create] of the earlier revision. *)
Definition Create (env : Env) (ctx : claims.Context) (v : SecureValue.t)
  : M SecureValue.t :=
match claims.From ctx with
| None => lift (Err (Errorf "missing auth info in context"))
| Some authInfo =>
  let row := Create_row env authInfo v in
  _ ← Printf "CREATE: %s\n";
  _ ← Exec row;
  lift (toK8s row)
end.

(** [secureStore.List] and [secureStore.get] of the earlier revision. *)
Definition List (ctx : claims.Context) (ns : string)
  (options : option internalversion.ListOptions) : M (list SecureValue.t) :=
mret [].

Definition get (ctx : claims.Context) (ns name : string)
  : M secureValueRow.t :=
lift (Err (Errorf "TODO")).

End Store.
End earlier.

(** ** JSON text

    The functions of a JSON codec on actual text: arrays of strings and
    objects of string members, strings escaped at the quote and the
    backslash, blanks allowed between tokens, the last of two equal keys
    winning as in Go. With the laws proved further down they make an
    instance of [Json], on which the store runs on concrete rows. *)

Module jsontext.

Definition quote : ascii := "034"%char.
Definition backslash : ascii := "092"%char.

Inductive token :=
| TStr (s : list ascii)
| TPunct (c : ascii).

Definition punct (c : ascii) : bool :=
  existsb (Ascii.eqb c) ["["; "]"; "{"; "}"; ","; ":"]%char.

Definition blank (c : ascii) : bool :=
  existsb (Ascii.eqb c) [" "; "009"; "010"; "013"]%char.

Definition special (c : ascii) : bool :=
  Ascii.eqb c quote || Ascii.eqb c backslash.

Fixpoint escape (s : list ascii) : list ascii :=
  match s with
  | [] => []
  | c :: s => if special c then backslash :: c :: escape s else c :: escape s
  end.

Definition print_token (t : token) : list ascii :=
  match t with
  | TStr s => quote :: escape s ++ [quote]
  | TPunct c => [c]
  end.

Definition print (ts : list token) : list ascii := concat (map print_token ts).

Fixpoint lex (cur : option (list ascii)) (s : list ascii)
  : option (list token) :=
  match s with
  | [] => match cur with None => Some [] | Some _ => None end
  | c :: s' =>
    match cur with
    | None =>
      if Ascii.eqb c quote then lex (Some []) s'
      else if punct c then cons (TPunct c) <$> lex None s'
      else if blank c then lex None s'
      else None
    | Some acc =>
      if Ascii.eqb c quote then cons (TStr (rev acc)) <$> lex None s'
      else if Ascii.eqb c backslash then
        match s' with
        | [] => None
        | d :: s'' => lex (Some (d :: acc)) s''
        end
      else lex (Some (c :: acc)) s'
    end
  end.

Fixpoint items (l : list (list ascii)) : list token :=
  match l with
  | [] => []
  | [x] => [TStr x]
  | x :: l => TStr x :: TPunct "," :: items l
  end.

Definition list_tokens (l : list (list ascii)) : list token :=
  TPunct "[" :: items l ++ [TPunct "]"].

Fixpoint parse_items (ts : list token) : option (list (list ascii)) :=
  match ts with
  | TStr x :: TPunct c :: ts' =>
    if Ascii.eqb c "," then cons x <$> parse_items ts'
    else if Ascii.eqb c "]" then
      match ts' with [] => Some [x] | _ => None end
    else None
  | _ => None
  end.

Definition parse_list (ts : list token) : option (list (list ascii)) :=
  match ts with
  | [TPunct a; TPunct b] =>
    if Ascii.eqb a "[" && Ascii.eqb b "]" then Some [] else None
  | TPunct a :: ts' => if Ascii.eqb a "[" then parse_items ts' else None
  | _ => None
  end.

Fixpoint members (l : list (list ascii * list ascii)) : list token :=
  match l with
  | [] => []
  | [(k, v)] => [TStr k; TPunct ":"; TStr v]
  | (k, v) :: l => TStr k :: TPunct ":" :: TStr v :: TPunct "," :: members l
  end.

Definition object_tokens (l : list (list ascii * list ascii)) : list token :=
  TPunct "{" :: members l ++ [TPunct "}"].

Fixpoint parse_members (ts : list token)
  : option (list (list ascii * list ascii)) :=
  match ts with
  | TStr k :: TPunct c :: TStr v :: TPunct d :: ts' =>
    if Ascii.eqb c ":" then
      if Ascii.eqb d "," then cons (k, v) <$> parse_members ts'
      else if Ascii.eqb d "}" then
        match ts' with [] => Some [(k, v)] | _ => None end
      else None
    else None
  | _ => None
  end.

Definition parse_object (ts : list token)
  : option (list (list ascii * list ascii)) :=
  match ts with
  | [TPunct a; TPunct b] =>
    if Ascii.eqb a "{" && Ascii.eqb b "}" then Some [] else None
  | TPunct a :: ts' => if Ascii.eqb a "{" then parse_members ts' else None
  | _ => None
  end.

Definition wf_token (t : token) : Prop :=
  match t with TStr _ => True | TPunct c => punct c = true end.

Definition text (ts : list token) : string := string_of_list_ascii (print ts).

Definition tokens (s : string) : option (list token) :=
lex None (list_ascii_of_string s).

Definition encode_list (l : list string) : string :=
text (list_tokens (list_ascii_of_string <$> l)).

Definition decode_list (s : string) : result (list string) :=
match tokens s ≫= parse_list with
| Some l => Ok (string_of_list_ascii <$> l)
| None => Err (Errorf "json: cannot unmarshal into Go value of type []string")
end.

Definition ascii_pair (kv : string * string) : list ascii * list ascii :=
(list_ascii_of_string kv.1, list_ascii_of_string kv.2).

Definition string_pair (kv : list ascii * list ascii) : string * string :=
(string_of_list_ascii kv.1, string_of_list_ascii kv.2).

Definition encode_map (m : gmap string string) : string :=
text (object_tokens (ascii_pair <$> map_to_list m)).

Definition decode_map (s : string) : result (gmap string string) :=
match tokens s ≫= parse_object with
| Some l => Ok (list_to_map (reverse (string_pair <$> l)))
| None =>
  Err (Errorf "json: cannot unmarshal into Go value of type map[string]string")
end.

End jsontext.

(** ** Concrete inputs *)

Module fixture.

(** [strip p s]: [s] without its prefix [p]. *)
Fixpoint strip (p s : string) : option string :=
match p, s with
| EmptyString, _ => Some s
| String a p', String b s' => if Ascii.eqb a b then strip p' s' else None
| String _ _, EmptyString => None
end.

(** A keeper that puts the salt in front of the value, one whose [Encode]
fails, and stores built on them. *)
Definition salted : SecretKeeper :=
{| Encode := λ v,
     Ok (String.append (SaltyValue.Salt v) (SaltyValue.Value v));
   Decode := λ v,
     match strip (SaltyValue.Salt v) (SaltyValue.Value v) with
     | Some plaintext => Ok plaintext
     | None => Err (Errorf "keeper: wrong salt")
     end |}.

Definition unreachable : SecretKeeper :=
{| Encode := λ _, Err (Errorf "keeper: context deadline exceeded");
   Decode := λ _, Err (Errorf "keeper: context deadline exceeded") |}.

Definition store : secureStore := {| keeper := salted |}.

Definition store_unreachable : secureStore := {| keeper := unreachable |}.

Definition env : Env :=
{| Now := 1700000000123456789;
   NewString := "0b54ab4c-7e5c-4f0e-9ad4-5b8b8e0f1c11";
   GetRandomString := λ _, Ok "Xy3kQ9zLmA" |}.

Definition user (uid : string) : claims.Context :=
{| claims.authInfo := Some {| claims.GetUID := uid |} |}.

Definition anonymous : claims.Context := {| claims.authInfo := None |}.

(** The request body of section 8, property 3, with a label, an authorized
API and a UID of the caller's choosing. *)
Definition db_pass : SecureValue.t :=
{| SecureValue.Name := "db-pass";
   SecureValue.Namespace := "ns";
   SecureValue.UID := "chosen-by-the-caller";
   SecureValue.CreationTimestamp := 0;
   SecureValue.ResourceVersion := None;
   SecureValue.Labels := {[ "team" := "a" ]};
   SecureValue.Annotations := ∅;
   SecureValue.CreatedBy := "";
   SecureValue.UpdatedBy := "";
   SecureValue.UpdatedTimestamp := None;
   SecureValue.Spec :=
     {| SecureValueSpec.Title := "database password";
        SecureValueSpec.Value := "s3cr3t";
        SecureValueSpec.APIs := ["app-a"] |} |}.

Definition empty : World := {| table := []; calls := [] |}.

(** A stored row that authorizes "app-a" alone, and a table of three rows
with the labels team=a, team=b, team=a. *)
Definition row (name team : string) : secureValueRow.t :=
{| secureValueRow.UID := name;
   secureValueRow.Namespace := "ns";
   secureValueRow.Name := name;
   secureValueRow.Title := "";
   secureValueRow.Salt := "Xy3kQ9zLmA";
   secureValueRow.Value := "Xy3kQ9zLmAs3cr3t";
   secureValueRow.Keeper := "";
   secureValueRow.Addr := "";
   secureValueRow.Created := 1234;
   secureValueRow.CreatedBy := "user:ryan";
   secureValueRow.Updated := 5678;
   secureValueRow.UpdatedBy := "user:cameron";
   secureValueRow.Annotations := "";
   secureValueRow.Labels := jsontext.encode_map {[ "team" := team ]};
   secureValueRow.APIs := jsontext.encode_list ["app-a"] |}.

Definition one_row : World :=
{| table := [row "db-pass" "a"]; calls := [] |}.

Definition three_rows : World :=
{| table := [row "first" "a"; row "second" "b"; row "third" "a"];
   calls := [] |}.

Definition team (t : string) : internalversion.ListOptions :=
{| internalversion.LabelSelector :=
     Some (labels.SelectorFromSet {[ "team" := t ]}) |}.

Definition names (r : result (list SecureValue.t)) : result (list string) :=
match r with
| Ok objs => Ok (List.map SecureValue.Name objs)
| Err e => Err e
| Panic msg => Panic msg
end.

End fixture.

(** [Decrypt] of ns/db-pass on the one-row table answers the plaintext to
the caller [ctx], after a query, the print of the authorized APIs and the
keeper's [Decode]. *)
Definition decrypted_for `{Json} (ctx : claims.Context) : Prop :=
∃ obj w',
  Decrypt fixture.store ctx "ns" "db-pass" fixture.one_row = (Ok obj, w')
  ∧ SecureValueSpec.Value (SecureValue.Spec obj) = "s3cr3t"
  ∧ calls w' =
    [CallQuery (request "ns" "db-pass");
     CallPrintf "MAKE SURE ctx is an app that can read: %s\n";
     CallDecode (stored (fixture.row "db-pass" "a"))].

(** Section 8, property 4, for the three operations at once: [Read],
[Delete] and [Decrypt] fail with NotFound wherever the table has no row of
the namespace and name. *)
Definition fails_with_NotFound {A} (run : result A * World) : Prop :=
∃ e, run.1 = Err e ∧ error_class e = NotFound.

Definition not_found_claim : Prop :=
∀ (J : Json) (s : secureStore) ctx ns name w,
  (∀ r, In r (table w) →
        ¬ (secureValueRow.Namespace r = ns ∧ secureValueRow.Name r = name)) →
  fails_with_NotFound (@Read J ctx ns name w)
  ∧ fails_with_NotFound (Delete ctx ns name w)
  ∧ fails_with_NotFound (@Decrypt J s ctx ns name w).

(** ** Rows without their secret columns *)

(** A row with the salt, the encoded value, the keeper and the address
    blanked, and a world whose table holds such rows. *)
Definition redact (row : secureValueRow.t) : secureValueRow.t :=
secureValueRow.mk (secureValueRow.UID row) (secureValueRow.Namespace row)
  (secureValueRow.Name row) (secureValueRow.Title row) "" "" "" ""
  (secureValueRow.Created row) (secureValueRow.CreatedBy row)
  (secureValueRow.Updated row) (secureValueRow.UpdatedBy row)
  (secureValueRow.Annotations row) (secureValueRow.Labels row)
  (secureValueRow.APIs row).

Definition redacted (w : World) : World :=
{| table := List.map redact (table w); calls := calls w |}.

(** ** The REST adapter ([pkg/registry/apis/secret/storage.go])

    [secretStorage] adapts the store to the API server: it reads the
    namespace from the request context and hands the call to the store. *)

(** A [runtime.Object]: a [*secret.SecureValue], or an object of another
    kind. *)
Module runtime.
Inductive Object :=
| ObjSecureValue (v : SecureValue.t)
| ObjOther (kind : string).
End runtime.

(** The request context: the namespace that [request.NamespaceValue] reads,
    and what the store reads from the same context. *)
Module request.
Record Context := {
  Namespace : string;
  identity : claims.Context
}.

Definition NamespaceValue (ctx : Context) : string := Namespace ctx.
End request.

Definition as_Object (r : result SecureValue.t) : result runtime.Object :=
match r with
| Ok v => Ok (runtime.ObjSecureValue v)
| Err e => Err e
| Panic msg => Panic msg
end.

Section secretStorage.
Context `{Json}.
Variable s : secureStore.

(** [secretStorage.List] and [secretStorage.Get]. *)
Definition secretStorage_List (ctx : request.Context)
  (options : option internalversion.ListOptions) : M (list SecureValue.t) :=
let ns := request.NamespaceValue ctx in
List (request.identity ctx) ns options.

Definition secretStorage_Get (ctx : request.Context) (name : string)
  : M runtime.Object := λ w,
let ns := request.NamespaceValue ctx in
let '(r, w') := Read (request.identity ctx) ns name w in
(as_Object r, w').

(** [secretStorage.Create]: the object must be a [*secret.SecureValue]; the
    second component is the caller's object as the call leaves it. *)
Definition secretStorage_Create (env : Env) (ctx : request.Context)
  (obj : runtime.Object)
  : World → result runtime.Object * runtime.Object * World := λ w,
match obj with
| runtime.ObjSecureValue sv =>
  let '(r, sv', w') := Create s env (request.identity ctx) sv w in
  (as_Object r, runtime.ObjSecureValue sv', w')
| runtime.ObjOther _ =>
  (Err (Errorf "expected SecureValue for create"), obj, w)
end.

(** [secretStorage.Update]. [UpdatedObject] is [objInfo.UpdatedObject(ctx,
    old)]; the boolean is [created]. On an error Go also hands back [old],
    which the model leaves out. *)
Definition secretStorage_Update (env : Env) (ctx : request.Context)
  (name : string) (UpdatedObject : runtime.Object → result runtime.Object)
  : World → result runtime.Object * bool * World := λ w,
let created := false in
match secretStorage_Get ctx name w with
| (Ok old, w1) =>
  match UpdatedObject old with
  | Ok obj =>
    match obj with
    | runtime.ObjSecureValue sv =>
      if bool_decide (SecureValue.UID sv = "")
      then
        let '(n, _, w2) := secretStorage_Create env ctx obj w1 in
        (n, true, w2)
      else
        let '(r, w2) := Update (request.identity ctx) sv w1 in
        (as_Object r, created, w2)
    | runtime.ObjOther _ =>
      (Err (Errorf "expected SecureValue for update"), created, w1)
    end
  | Err e => (Err e, created, w1)
  | Panic msg => (Panic msg, created, w1)
  end
| (Err e, w1) => (Err e, created, w1)
| (Panic msg, w1) => (Panic msg, created, w1)
end.

(** [secretStorage.Delete]. *)
Definition secretStorage_Delete (ctx : request.Context) (name : string)
  : M (SecureValue.t * bool) :=
let ns := request.NamespaceValue ctx in
Delete (request.identity ctx) ns name.

End secretStorage.

(** ** The component extensions hook ([usePluginComponents])

    The body of the memoised callback of [usePluginComponents], as a function
    of what the hooks hand it: the registry state, the options, and the
    answers of the development-mode checks ([isExtensionPointIdInvalid] and
    [isExtensionPointMetaInfoMissing] are not among the sources). The
    [number]s are integers; [extensionsByPlugin] is an object used as a map
    from plugin ids to counts. The calls of [console.error] are left out. *)
Module pluginComponents.
Section Hook.
Context {Component : Type}.

Record RegistryItem := {
  pluginId : string;
  component : Component
}.

Record UsePluginComponentOptions := {
  limitPerPlugin : option Z;
  extensionPointId : string
}.

Record UsePluginComponentsResult := {
  isLoading : bool;
  components : list Component
}.

(** [limitPerPlugin && extensionsByPlugin[pluginId] >= limitPerPlugin]: an
    undefined or zero limit is falsy, and an undefined count compares false. *)
Definition over_limit (limitPerPlugin : option Z)
  (extensionsByPlugin : gmap string Z) (pluginId : string) : bool :=
match limitPerPlugin with
| Some limit =>
  bool_decide (limit ≠ 0)
  && match extensionsByPlugin !! pluginId with
     | Some count => bool_decide (limit ≤ count)
     | None => false
     end
| None => false
end.

(** One turn of the loop over the registry items. *)
Definition loop_body (limitPerPlugin : option Z)
  (state : list Component * gmap string Z) (registryItem : RegistryItem)
  : list Component * gmap string Z :=
let '(components, extensionsByPlugin) := state in
if over_limit limitPerPlugin extensionsByPlugin (pluginId registryItem)
then state
else
  let extensionsByPlugin :=
    match extensionsByPlugin !! pluginId registryItem with
    | None => <[pluginId registryItem := 0]> extensionsByPlugin
    | Some _ => extensionsByPlugin
    end in
  (components ++ [component registryItem],
   <[pluginId registryItem :=
       default 0 (extensionsByPlugin !! pluginId registryItem) + 1]>
     extensionsByPlugin).

(** [registryState?.[extensionPointId] ?? []]. *)
Definition registered (registryState : option (gmap string (list RegistryItem)))
  (extensionPointId : string) : list RegistryItem :=
match registryState with
| Some state => default [] (state !! extensionPointId)
| None => []
end.

Definition usePluginComponents (isGrafanaDevMode : bool)
  (isExtensionPointIdInvalid isExtensionPointMetaInfoMissing : bool)
  (registryState : option (gmap string (list RegistryItem)))
  (options : UsePluginComponentOptions) : UsePluginComponentsResult :=
if isGrafanaDevMode && isExtensionPointIdInvalid
then {| isLoading := false; components := [] |}
else if isGrafanaDevMode && isExtensionPointMetaInfoMissing
then {| isLoading := false; components := [] |}
else
  {| isLoading := false;
     components :=
       (foldl (loop_body (limitPerPlugin options)) ([], ∅)
          (registered registryState (extensionPointId options))).1 |}.

(** How many of the items are of the plugin [p], and the number of
    components one plugin can contribute under the limit [limit]. *)
Definition of_plugin (p : string) (items : list RegistryItem) : nat :=
length (filter (λ item, pluginId item = p) items).

Definition cap (limit : Z) : nat := Z.to_nat (Z.max 1 limit).

(** The state of the loop after the items [seen]: the components are those
of a sublist [kept] of [seen] that holds, of each plugin, as many items as
[seen] does up to the cap, and the counts are those of [kept]. *)
Definition loop_invariant (limit : Z) (seen : list RegistryItem)
  (state : list Component * gmap string Z) : Prop :=
∃ kept,
  state.1 = List.map component kept
  ∧ kept `sublist_of` seen
  ∧ (∀ p, of_plugin p kept = Nat.min (of_plugin p seen) (cap limit))
  ∧ (∀ p, state.2 !! p
          = if decide (of_plugin p seen = 0%nat) then None
            else Some (Z.of_nat (of_plugin p kept))).

End Hook.
End pluginComponents.

(** ** More concrete inputs *)

Module sample.

(** The object of [fixture.db_pass], submitted with an update timestamp of
    its own, and submitted without a name. *)
Definition resubmitted : SecureValue.t :=
{| SecureValue.Name := "db-pass";
   SecureValue.Namespace := "ns";
   SecureValue.UID := "";
   SecureValue.CreationTimestamp := 0;
   SecureValue.ResourceVersion := None;
   SecureValue.Labels := {[ "team" := "a" ]};
   SecureValue.Annotations := ∅;
   SecureValue.CreatedBy := "user:somebody-else";
   SecureValue.UpdatedBy := "user:somebody-else";
   SecureValue.UpdatedTimestamp := Some 1600000000000000000;
   SecureValue.Spec :=
     {| SecureValueSpec.Title := "database password";
        SecureValueSpec.Value := "s3cr3t";
        SecureValueSpec.APIs := ["app-a"] |} |}.

Definition nameless : SecureValue.t :=
{| SecureValue.Name := "";
   SecureValue.Namespace := "ns";
   SecureValue.UID := "";
   SecureValue.CreationTimestamp := 0;
   SecureValue.ResourceVersion := None;
   SecureValue.Labels := ∅;
   SecureValue.Annotations := ∅;
   SecureValue.CreatedBy := "";
   SecureValue.UpdatedBy := "";
   SecureValue.UpdatedTimestamp := None;
   SecureValue.Spec :=
     {| SecureValueSpec.Title := "";
        SecureValueSpec.Value := "s3cr3t";
        SecureValueSpec.APIs := [] |} |}.

Definition earlier_env : earlier.Env :=
{| earlier.Now := 1700000000123456789;
   earlier.NewString := "0b54ab4c-7e5c-4f0e-9ad4-5b8b8e0f1c11";
   earlier.GenerateShortUID := λ k,
     if bool_decide (k = 0%nat) then "ce1k3mpqz" else "be9x2w7ty" |}.

(** A request in the namespace "ns" by "user:1", and an update that leaves
    the object as it is. *)
Definition request_ns : request.Context :=
{| request.Namespace := "ns"; request.identity := fixture.user "user:1" |}.

Definition unchanged (old : runtime.Object) : result runtime.Object := Ok old.

(** Three components registered for one extension point by two plugins. *)
Definition registry
  : option (gmap string (list (@pluginComponents.RegistryItem string))) :=
Some {[ "grafana/dashboard/panel/menu" :=
          [ {| pluginComponents.pluginId := "myorg-a-app";
               pluginComponents.component := "A1" |};
            {| pluginComponents.pluginId := "myorg-b-app";
               pluginComponents.component := "B1" |};
            {| pluginComponents.pluginId := "myorg-a-app";
               pluginComponents.component := "A2" |} ] ]}.

Definition limited (limit : option Z)
  : pluginComponents.UsePluginComponentOptions :=
{| pluginComponents.limitPerPlugin := limit;
   pluginComponents.extensionPointId := "grafana/dashboard/panel/menu" |}.

End sample.

(** * Theorems *)

(** ** The laws of the JSON text codec *)

Module jsontext_laws.
Import jsontext.

Lemma lex_string s : ∀ acc rest,
  lex (Some acc) (escape s ++ quote :: rest)
  = cons (TStr (rev acc ++ s)) <$> lex None rest.
Proof.
  induction s as [|c s IH]; intros acc rest; simpl.
  - by rewrite app_nil_r.
  - destruct (special c) eqn:Hc; simpl.
    + rewrite IH. simpl. by rewrite <- app_assoc.
    + unfold special in Hc. apply orb_false_elim in Hc as [-> ->].
      rewrite IH. simpl. by rewrite <- app_assoc.
Qed.

Lemma lex_print ts :
  Forall wf_token ts → lex None (print ts) = Some ts.
Proof.
  induction 1 as [|t ts Ht _ IH]; [done|].
  unfold print in *. simpl. destruct t as [x|c]; simpl.
  - rewrite <- app_assoc. simpl. rewrite lex_string. simpl. by rewrite IH.
  - simpl in Ht.
    assert (Ascii.eqb c quote = false) as ->.
    { unfold punct in Ht. simpl in Ht.
      destruct (Ascii.eqb_spec c quote) as [->|]; [discriminate|done]. }
    by rewrite Ht, IH.
Qed.

Lemma wf_items l : Forall wf_token (items l).
Proof.
  induction l as [|x [|y l] IH]; simpl; repeat constructor; done.
Qed.

Lemma wf_members l : Forall wf_token (members l).
Proof.
  induction l as [|[k v] [|y l] IH]; simpl; repeat constructor; done.
Qed.

Lemma parse_items_ok x l :
  parse_items (items (x :: l) ++ [TPunct "]"]) = Some (x :: l).
Proof.
  revert x. induction l as [|y l IH]; intros x; [done|].
  change (parse_items (items (x :: y :: l) ++ [TPunct "]"]))
    with (cons x <$> parse_items (items (y :: l) ++ [TPunct "]"])).
  by rewrite IH.
Qed.

Lemma parse_list_ok l : parse_list (list_tokens l) = Some l.
Proof.
  destruct l as [|x l]; [done|].
  unfold list_tokens, parse_list.
  pose proof (parse_items_ok x l) as E.
  destruct l as [|y l]; [done|].
  simpl in *. done.
Qed.

Lemma parse_members_ok x l :
  parse_members (members (x :: l) ++ [TPunct "}"]) = Some (x :: l).
Proof.
  revert x. induction l as [|y l IH]; intros [k v]; [done|].
  change (parse_members (members ((k, v) :: y :: l) ++ [TPunct "}"]))
    with (cons (k, v) <$> parse_members (members (y :: l) ++ [TPunct "}"])).
  by rewrite IH.
Qed.

Lemma parse_object_ok l : parse_object (object_tokens l) = Some l.
Proof.
  destruct l as [|x l]; [done|].
  unfold object_tokens, parse_object.
  pose proof (parse_members_ok x l) as E.
  destruct x as [k v]. destruct l as [|y l]; [done|].
  simpl in *. done.
Qed.

Lemma tokens_text ts : Forall wf_token ts → tokens (text ts) = Some ts.
Proof.
intros Hts. unfold tokens, text.
rewrite list_ascii_of_string_of_list_ascii. by apply lex_print.
Qed.

Lemma wf_list_tokens l : Forall wf_token (list_tokens l).
Proof.
unfold list_tokens. constructor; [done|].
apply Forall_app. split; [apply wf_items|by repeat constructor].
Qed.

Lemma wf_object_tokens l : Forall wf_token (object_tokens l).
Proof.
unfold object_tokens. constructor; [done|].
apply Forall_app. split; [apply wf_members|by repeat constructor].
Qed.

Lemma decode_encode_list l : decode_list (encode_list l) = Ok l.
Proof.
unfold decode_list, encode_list.
rewrite tokens_text by apply wf_list_tokens.
unfold mbind, option_bind. rewrite parse_list_ok. f_equal.
rewrite <- list_fmap_compose. rewrite <- (list_fmap_id l) at 2.
apply list_fmap_ext. intros _ x _. apply string_of_list_ascii_of_string.
Qed.

Lemma decode_encode_map m : decode_map (encode_map m) = Ok m.
Proof.
unfold decode_map, encode_map.
rewrite tokens_text by apply wf_object_tokens.
unfold mbind, option_bind. rewrite parse_object_ok. f_equal.
rewrite <- list_fmap_compose.
assert (string_pair ∘ ascii_pair <$> map_to_list m = map_to_list m) as ->.
{ rewrite <- (list_fmap_id (map_to_list m)) at 2.
  apply list_fmap_ext. intros _ [k v] _. unfold string_pair, ascii_pair.
  simpl. by rewrite !string_of_list_ascii_of_string. }
symmetry. apply list_to_map_flip. symmetry. apply reverse_Permutation.
Qed.

Lemma text_nonempty t ts : text (t :: ts) ≠ "".
Proof. unfold text, print. by destruct t. Qed.

(** The instance of [Json] on text. *)
Definition codec : Json :=
{| Marshal_map := encode_map;
   Unmarshal_map := decode_map;
   Marshal_list := encode_list;
   Unmarshal_list := decode_list;
   Unmarshal_Marshal_map := decode_encode_map;
   Unmarshal_Marshal_list := decode_encode_list;
   Marshal_map_nonempty := λ m, text_nonempty _ _;
   Marshal_list_nonempty := λ l, text_nonempty _ _ |}.

End jsontext_laws.

(** ** The row codec *)

Section CodecFacts.
Context `{Json}.

Lemma toK8s_columns v :
  toK8s v =
  (apis ← column_list (secureValueRow.APIs v);
   anno ← column_map (secureValueRow.Annotations v);
   labels ← column_map (secureValueRow.Labels v);
   Ok (decoded v apis anno labels)).
Proof.
unfold toK8s, column_list, column_map, decoded.
destruct (bool_decide (secureValueRow.APIs v ≠ ""));
  [destruct (Unmarshal_list _); [|done..]|];
  (destruct (bool_decide (secureValueRow.Annotations v ≠ ""));
   [destruct (Unmarshal_map (secureValueRow.Annotations v)); [|done..]|]);
  (destruct (bool_decide (secureValueRow.Labels v ≠ ""));
   [destruct (Unmarshal_map (secureValueRow.Labels v)); [|done..]|]);
  simpl; by destruct (bool_decide (_ ≠ _)).
Qed.

Lemma toK8s_Ok v apis anno labels :
  column_list (secureValueRow.APIs v) = Ok apis →
  column_map (secureValueRow.Annotations v) = Ok anno →
  column_map (secureValueRow.Labels v) = Ok labels →
  toK8s v = Ok (decoded v apis anno labels).
Proof. intros E1 E2 E3. by rewrite toK8s_columns, E1, E2, E3. Qed.

Lemma toK8s_inv v obj :
  toK8s v = Ok obj →
  ∃ apis anno labels,
    column_list (secureValueRow.APIs v) = Ok apis
    ∧ column_map (secureValueRow.Annotations v) = Ok anno
    ∧ column_map (secureValueRow.Labels v) = Ok labels
    ∧ obj = decoded v apis anno labels.
Proof.
rewrite toK8s_columns.
destruct (column_list _) as [apis| |]; [|done..].
destruct (column_map (secureValueRow.Annotations v)) as [anno| |]; [|done..].
destruct (column_map (secureValueRow.Labels v)) as [labels| |]; [|done..].
simpl. intros [= <-]. by exists apis, anno, labels.
Qed.

(** The columns [toSecureValueRow] writes decode to what was encoded. *)
Lemma column_list_Marshal (l : list string) :
  column_list (if bool_decide (0 < length l)%nat then Marshal_list l else "")
  = Ok l.
Proof.
unfold column_list. destruct (bool_decide_reflect (0 < length l)%nat) as [Hl|Hl].
- rewrite bool_decide_eq_true_2 by apply Marshal_list_nonempty.
  apply Unmarshal_Marshal_list.
- rewrite bool_decide_eq_false_2 by (by intros []).
  destruct l; [done | simpl in Hl; lia].
Qed.

Lemma column_map_Marshal (m m' : gmap string string) :
  (size m = 0%nat → m' = ∅) →
  column_map (if bool_decide (0 < size m)%nat then Marshal_map m' else "")
  = Ok m'.
Proof.
intros Hm. unfold column_map.
destruct (bool_decide_reflect (0 < size m)%nat) as [Hl|Hl].
- rewrite bool_decide_eq_true_2 by apply Marshal_map_nonempty.
  apply Unmarshal_Marshal_map.
- rewrite bool_decide_eq_false_2 by (by intros []).
  rewrite Hm; [done | lia].
Qed.

(** [toK8s] after [toSecureValueRow]: the row always decodes, and the object
is the row's scalars with the labels and the authorized APIs of [v] and the
annotations of [v] that the loop kept. *)
Lemma toK8s_toSecureValueRow uid v :
  ∃ row,
    toSecureValueRow uid v = Ok row
    ∧ toK8s row =
      Ok (decoded row (SecureValueSpec.APIs (SecureValue.Spec v))
            (filter keep_annotation (SecureValue.Annotations v))
            (SecureValue.Labels v)).
Proof.
eexists. split; [reflexivity|].
apply toK8s_Ok; simpl.
- apply column_list_Marshal.
- apply column_map_Marshal. intros Hm%map_size_empty_inv.
  rewrite Hm. apply map_filter_empty.
- apply column_map_Marshal. apply map_size_empty_inv.
Qed.

(** The codec round trip on what it does reproduce: labels, authorized APIs,
title, namespace and name come back as they went in; an annotation comes
back exactly when the literal "grafana.app/" does not begin with its key. *)
Theorem codec_roundtrip uid v :
  ∃ row obj,
    toSecureValueRow uid v = Ok row
    ∧ toK8s row = Ok obj
    ∧ SecureValue.Labels obj = SecureValue.Labels v
    ∧ SecureValueSpec.APIs (SecureValue.Spec obj)
      = SecureValueSpec.APIs (SecureValue.Spec v)
    ∧ SecureValueSpec.Title (SecureValue.Spec obj)
      = SecureValueSpec.Title (SecureValue.Spec v)
    ∧ SecureValue.Namespace obj = SecureValue.Namespace v
    ∧ SecureValue.Name obj = SecureValue.Name v
    ∧ (∀ k, HasPrefix "grafana.app/" k = false →
         SecureValue.Annotations obj !! k = SecureValue.Annotations v !! k)
    ∧ (∀ k, HasPrefix "grafana.app/" k = true →
         SecureValue.Annotations obj !! k = None).
Proof.
destruct (toK8s_toSecureValueRow uid v) as (row & Hrow & Hobj).
eexists row, _. split; [done|]. split; [exact Hobj|].
injection Hrow as <-. simpl. repeat split; try done.
- intros k Hk. destruct (SecureValue.Annotations v !! k) as [x|] eqn:E.
  + by apply map_lookup_filter_Some.
  + apply map_lookup_filter_None. by left.
- intros k Hk. apply map_lookup_filter_None. right. intros x _.
  unfold keep_annotation. simpl. by rewrite Hk.
Qed.

(** C1 (codec round trip, on the failing input). The annotations
{"g": "x", "grafana.app/foo": "y"} go through [toSecureValueRow] and
[toK8s]: the key "g", which does not carry the reserved prefix, is lost, and
the key "grafana.app/foo", which carries it, comes back. The test in the loop
is [strings.HasPrefix("grafana.app/", k)], with the arguments in the other
order than [HasPrefix(k, "grafana.app/")]. *)
Theorem codec_roundtrip_fails_on_annotations uid :
  ∃ row obj,
    toSecureValueRow uid
      (annotated {[ "g" := "x"; "grafana.app/foo" := "y" ]}) = Ok row
    ∧ toK8s row = Ok obj
    ∧ HasPrefix "g" "grafana.app/" = false
    ∧ SecureValue.Annotations obj !! "g" = None
    ∧ HasPrefix "grafana.app/foo" "grafana.app/" = true
    ∧ SecureValue.Annotations obj !! "grafana.app/foo" = Some "y".
Proof.
destruct (toK8s_toSecureValueRow uid
            (annotated {[ "g" := "x"; "grafana.app/foo" := "y" ]}))
  as (row & Hrow & Hobj).
eexists row, _. split; [exact Hrow|]. split; [exact Hobj|].
injection Hrow as <-. cbn [SecureValue.Annotations decoded annotated].
repeat split.
Qed.

(** C5 (resource version and update metadata). When [toK8s] fails, one of
the three columns does not decode; and the object it answers
has the row's [Updated] as resource version, the row's [CreatedBy] as
created-by, and updated-by and the update timestamp set exactly when
[Updated] differs from [Created]. *)
Theorem toK8s_metadata (row : secureValueRow.t) :
  match toK8s row with
  | Ok obj =>
    SecureValue.ResourceVersion obj = Some (secureValueRow.Updated row)
    ∧ utils.GetCreatedBy obj = secureValueRow.CreatedBy row
    ∧ (secureValueRow.Updated row ≠ secureValueRow.Created row →
         utils.GetUpdatedBy obj = secureValueRow.UpdatedBy row
         ∧ utils.GetUpdatedTimestamp obj
           = Some (time.UnixMilli (secureValueRow.Updated row)))
    ∧ (secureValueRow.Updated row = secureValueRow.Created row →
         utils.GetUpdatedBy obj = ""
         ∧ utils.GetUpdatedTimestamp obj = None)
    ∧ (utils.GetUpdatedTimestamp obj ≠ None
       ↔ secureValueRow.Updated row ≠ secureValueRow.Created row)
  | Err _ | Panic _ => ¬ columns_decode row
  end.
Proof.
rewrite toK8s_columns. unfold columns_decode.
destruct (column_list _) as [apis|e|msg]; simpl; [|by intros (? & _)..].
destruct (column_map (secureValueRow.Annotations row)) as [anno|e|msg]; simpl;
  [|by intros (_ & ? & _)..].
destruct (column_map (secureValueRow.Labels row)) as [labels|e|msg]; simpl;
  [|by intros (_ & _ & ?)..].
unfold utils.GetUpdatedBy, utils.GetUpdatedTimestamp. simpl.
case_bool_decide as Hupd; repeat split; try done; intros; tauto.
Qed.

End CodecFacts.

(** ** The store *)

(** The statements. *)
Lemma sqlSecureValueList_absent ns name tbl :
  name ≠ "" →
  (∀ r, In r tbl →
        ¬ (secureValueRow.Namespace r = ns ∧ secureValueRow.Name r = name)) →
  sqlSecureValueList (request ns name) tbl = [].
Proof.
intros Hname. unfold sqlSecureValueList.
induction tbl as [|r tbl IH]; intros Habs; [done|]. simpl.
rewrite IH by (intros r' Hr'; apply Habs; by right).
unfold selected. simpl.
destruct (String.eqb_spec (secureValueRow.Namespace r) ns) as [Hns|]; [|done].
destruct (String.eqb_spec name "") as [|_]; [done|]. simpl.
destruct (String.eqb_spec (secureValueRow.Name r) name) as [Hn|]; [|done].
destruct (Habs r); [by left | done].
Qed.

Lemma same_key_absent row tbl :
  existsb (same_key row) tbl = false →
  ∀ r, In r tbl →
       ¬ (secureValueRow.Namespace r = secureValueRow.Namespace row
          ∧ secureValueRow.Name r = secureValueRow.Name row).
Proof.
intros Hex r Hr [Hns Hn].
assert (existsb (same_key row) tbl = true) as E; [|congruence].
apply existsb_exists. exists r. split; [done|].
unfold same_key. rewrite Hns, Hn, !String.eqb_refl. done.
Qed.

Lemma sqlSecureValueList_inserted row tbl :
  secureValueRow.Name row ≠ "" →
  existsb (same_key row) tbl = false →
  sqlSecureValueList
    (request (secureValueRow.Namespace row) (secureValueRow.Name row))
    (tbl ++ [row]) = [row].
Proof.
intros Hname Hex. unfold sqlSecureValueList. rewrite List.filter_app.
fold (sqlSecureValueList
        (request (secureValueRow.Namespace row) (secureValueRow.Name row)) tbl).
rewrite sqlSecureValueList_absent by (done || by apply same_key_absent).
simpl. unfold selected. simpl. by rewrite !String.eqb_refl, orb_true_r.
Qed.

Section StoreFacts.
Context `{Json}.
Variable s : secureStore.

Lemma Create_row_run env a v w :
  Create_row s env a v w =
  match GetRandomString env 10 with
  | Ok salt =>
    match Encode (keeper s) (salty v salt) with
    | Ok value =>
      let row := created_row (NewString env) a v salt value in
      let cs := [CallGetRandomString 10; CallEncode (salty v salt);
                 CallPrintf "CREATE: %s\n"; CallExec row] in
      if existsb (same_key row) (table w)
      then (Err (Errorf "UNIQUE constraint failed: secure_value.namespace, secure_value.name"),
            logged w cs)
      else (toK8s row, {| table := table w ++ [row]; calls := calls w ++ cs |})
    | Err e =>
      (Err e, logged w [CallGetRandomString 10; CallEncode (salty v salt)])
    | Panic msg =>
      (Panic msg, logged w [CallGetRandomString 10; CallEncode (salty v salt)])
    end
  | Err e => (Err e, logged w [CallGetRandomString 10])
  | Panic msg => (Panic msg, logged w [CallGetRandomString 10])
  end.
Proof.
unfold Create_row, created_row, logged, salty, mbind, M_bind, lift,
  util_GetRandomString, keeper_Encode, Printf, call, Exec,
  sqlSecureValueInsert.
simpl.
destruct (GetRandomString env 10) as [salt|e|msg]; [|done..]. simpl.
destruct (Encode (keeper s) _) as [value|e|msg]; simpl;
  rewrite <- ?app_assoc; [|done..].
destruct (existsb _ _); simpl; rewrite <- ?app_assoc; done.
Qed.

Lemma get_run ctx ns name w :
  get ctx ns name w =
  (match sqlSecureValueList (request ns name) (table w) with
   | row :: _ => Ok row
   | [] => Err (Errorf "not found")
   end, logged w [CallQuery (request ns name)]).
Proof.
unfold get, mbind, M_bind, Query, lift, logged. simpl.
by destruct (sqlSecureValueList _ _).
Qed.

Lemma toK8s_created_row uid a v salt value :
  toK8s (created_row uid a v salt value) =
  Ok (decoded (created_row uid a v salt value)
        (SecureValueSpec.APIs (SecureValue.Spec v))
        (filter keep_annotation (SecureValue.Annotations v))
        (SecureValue.Labels v)).
Proof.
destruct (toK8s_toSecureValueRow uid v) as (row & Hrow & Hobj).
unfold created_row. rewrite Hrow.
apply toK8s_inv in Hobj as (apis & anno & labels & E1 & E2 & E3 & Hd).
injection Hd as -> -> ->. by apply toK8s_Ok.
Qed.

(** [Create] once the three checks have passed. *)
Lemma Create_validated env ctx a v w :
  claims.From ctx = Some a →
  SecureValue.Name v ≠ "" →
  SecureValueSpec.Value (SecureValue.Spec v) ≠ "" →
  Create s env ctx v w =
  let v1 := SecureValue.with_CreationTimestamp (metav1.NewTime (Now env)) v in
  ((Create_row s env a v1 w).1, v1, (Create_row s env a v1 w).2).
Proof.
intros Ha Hn Hv. unfold Create. rewrite Ha.
rewrite !bool_decide_eq_false_2 by done. simpl.
by destruct (Create_row _ _ _ _ _).
Qed.

(** C4 (Create validation). Without an identity in the context [Create]
fails with "missing auth info in context" (Unauthenticated); with one, an
empty name or an empty value makes it fail with "missing name" or "missing
value" (InvalidArgument); in both cases nothing else happens. With an
identity, a name and a value the checks pass and [Create] goes on: it stamps
the object, draws the salt, and succeeds whenever the salt, the keeper and
the insert do. *)
Theorem Create_validation env ctx v w :
  (claims.From ctx = None →
     Create s env ctx v w
     = (Err (Errorf "missing auth info in context"), v, w)
     ∧ error_class (Errorf "missing auth info in context") = Unauthenticated)
  ∧ (∀ a, claims.From ctx = Some a →
       SecureValue.Name v = ""
       ∨ SecureValueSpec.Value (SecureValue.Spec v) = "" →
       ∃ e, Create s env ctx v w = (Err e, v, w)
            ∧ error_class e = InvalidArgument)
  ∧ (∀ a, claims.From ctx = Some a →
       SecureValue.Name v ≠ "" →
       SecureValueSpec.Value (SecureValue.Spec v) ≠ "" →
       let v1 :=
         SecureValue.with_CreationTimestamp (metav1.NewTime (Now env)) v in
       ∃ r w' cs,
         Create s env ctx v w = (r, v1, w')
         ∧ calls w' = calls w ++ CallGetRandomString 10 :: cs
         ∧ (∀ salt value,
              GetRandomString env 10 = Ok salt →
              Encode (keeper s) (salty v salt) = Ok value →
              existsb (same_key (created_row (NewString env) a v1 salt value))
                (table w) = false →
              is_Ok r = true)).
Proof.
split; [|split].
- intros Ha. unfold Create. by rewrite Ha.
- intros a Ha Hempty. unfold Create. rewrite Ha.
  destruct (decide (SecureValue.Name v = "")) as [Hn|Hn].
  + rewrite bool_decide_eq_true_2 by done. by eexists.
  + rewrite bool_decide_eq_false_2 by done.
    destruct Hempty as [?|Hv]; [done|].
    rewrite bool_decide_eq_true_2 by done. by eexists.
- intros a Ha Hn Hv v1.
  rewrite (Create_validated env ctx a v w) by done. cbv zeta. fold v1.
  rewrite Create_row_run.
  change (salty v1) with (salty v).
  destruct (GetRandomString env 10) as [salt|e|msg];
    [|eexists _, _, _; (split; [reflexivity|]); (split; [reflexivity|]);
      intros ?? ?; discriminate..].
  destruct (Encode (keeper s) (salty v salt)) as [value|e|msg] eqn:Henc;
    [|eexists _, _, _; (split; [reflexivity|]); (split; [reflexivity|]);
      intros ?? [= <-] ?; congruence..].
  simpl. destruct (existsb _ _) eqn:Hex.
  + eexists _, _, _. split; [reflexivity|]. split; [reflexivity|].
    intros ?? [= <-] ?. congruence.
  + eexists _, _, _. split; [reflexivity|]. split; [reflexivity|].
    intros ?? _ _ _. simpl. by rewrite toK8s_created_row.
Qed.

(** Every run of [Create], case by case. *)
Lemma Create_run env ctx v w :
  Create s env ctx v w =
  match claims.From ctx with
  | None => (Err (Errorf "missing auth info in context"), v, w)
  | Some a =>
    if bool_decide (SecureValue.Name v = "")
    then (Err (Errorf "missing name"), v, w)
    else if bool_decide (SecureValueSpec.Value (SecureValue.Spec v) = "")
    then (Err (Errorf "missing value"), v, w)
    else
      let v1 :=
        SecureValue.with_CreationTimestamp (metav1.NewTime (Now env)) v in
      match GetRandomString env 10 with
      | Ok salt =>
        match Encode (keeper s) (salty v salt) with
        | Ok value =>
          let row := created_row (NewString env) a v1 salt value in
          let cs := [CallGetRandomString 10; CallEncode (salty v salt);
                     CallPrintf "CREATE: %s\n"; CallExec row] in
          if existsb (same_key row) (table w)
          then (Err (Errorf "UNIQUE constraint failed: secure_value.namespace, secure_value.name"),
                v1, logged w cs)
          else (Ok (decoded row
                      (SecureValueSpec.APIs (SecureValue.Spec v))
                      (filter keep_annotation (SecureValue.Annotations v))
                      (SecureValue.Labels v)),
                v1, {| table := table w ++ [row]; calls := calls w ++ cs |})
        | Err e =>
          (Err e, v1,
           logged w [CallGetRandomString 10; CallEncode (salty v salt)])
        | Panic msg =>
          (Panic msg, v1,
           logged w [CallGetRandomString 10; CallEncode (salty v salt)])
        end
      | Err e => (Err e, v1, logged w [CallGetRandomString 10])
      | Panic msg => (Panic msg, v1, logged w [CallGetRandomString 10])
      end
  end.
Proof.
unfold Create. destruct (claims.From ctx) as [a|]; [|done].
repeat case_bool_decide; try done.
rewrite Create_row_run. cbv zeta.
change (salty (SecureValue.with_CreationTimestamp _ v)) with (salty v).
destruct (GetRandomString env 10) as [salt|e|msg]; [|done..].
destruct (Encode (keeper s) (salty v salt)) as [value|e|msg]; [|done..].
destruct (existsb _ _); [done|].
by rewrite toK8s_created_row.
Qed.

(** The cases of [Create_run] as goals: the names [a], [salt], [value] and
the equations [Hauth], [Hname], [Hvalue], [Hsalt], [Henc], [Hkey] are those
of the case at hand. *)
Ltac Create_cases env ctx v w :=
  rewrite (Create_run env ctx v w);
  destruct (claims.From ctx) as [a|] eqn:Hauth;
  [ destruct (decide (SecureValue.Name v = "")) as [Hname|Hname];
    [ rewrite (bool_decide_eq_true_2 _ Hname)
    | rewrite (bool_decide_eq_false_2 _ Hname);
      destruct (decide (SecureValueSpec.Value (SecureValue.Spec v) = ""))
        as [Hvalue|Hvalue];
      [ rewrite (bool_decide_eq_true_2 _ Hvalue)
      | rewrite (bool_decide_eq_false_2 _ Hvalue); cbv zeta;
        destruct (GetRandomString env 10) as [salt|e|msg] eqn:Hsalt;
        [ destruct (Encode (keeper s) (salty v salt))
            as [value|e|msg] eqn:Henc;
          [ destruct (existsb _ _) eqn:Hkey | | ]
        | | ] ] ]
  | ].

Lemma not_validated_auth ctx v : claims.From ctx = None → ¬ validated ctx v.
Proof. intros E (Hs & _). rewrite E in Hs. by destruct Hs. Qed.

Lemma not_validated_name ctx v : SecureValue.Name v = "" → ¬ validated ctx v.
Proof. by intros E (_ & ? & _). Qed.

Lemma not_validated_value ctx v :
  SecureValueSpec.Value (SecureValue.Spec v) = "" → ¬ validated ctx v.
Proof. by intros E (_ & _ & ?). Qed.

Lemma with_CreationTimestamp_same v :
  v = SecureValue.with_CreationTimestamp (SecureValue.CreationTimestamp v) v.
Proof. by destruct v. Qed.

(** C8 (encode, then insert). In every run of [Create] the insert, when it
is sent, is the last of four calls and comes after a successful
[Encode] whose answer is the row's value; the table changes only when the
insert is sent; and when the salt cannot be drawn or [Encode] fails,
[Create] answers an error (that very error, once the checks have passed),
the insert is not sent and the table is as it was. *)
Theorem Create_encode_then_insert env ctx v w :
  ∃ r v' w' cs,
    Create s env ctx v w = (r, v', w')
    ∧ calls w' = calls w ++ cs
    ∧ (∀ row, In (CallExec row) cs →
         ∃ salt,
           cs = [CallGetRandomString 10; CallEncode (salty v salt);
                 CallPrintf "CREATE: %s\n"; CallExec row]
           ∧ Encode (keeper s) (salty v salt)
             = Ok (secureValueRow.Value row))
    ∧ ((∀ row, ¬ In (CallExec row) cs) → table w' = table w)
    ∧ (∀ e, GetRandomString env 10 = Err e →
         (∃ e', r = Err e')
         ∧ (validated ctx v → r = Err e)
         ∧ table w' = table w
         ∧ ∀ row, ¬ In (CallExec row) cs)
    ∧ (∀ salt e,
         GetRandomString env 10 = Ok salt →
         Encode (keeper s) (salty v salt) = Err e →
         (∃ e', r = Err e')
         ∧ (validated ctx v → r = Err e)
         ∧ table w' = table w
         ∧ ∀ row, ¬ In (CallExec row) cs).
Proof.
Create_cases env ctx v w.
1, 2, 9:
  eexists _, v, w, []; (split; [reflexivity|]);
  rewrite app_nil_r; repeat split; try done; eauto;
  intros Hval; exfalso; revert Hval;
  first [ by apply not_validated_name | by apply not_validated_value
        | by apply not_validated_auth ].
all: eexists _, _, _, _; (split; [reflexivity|]); (split; [reflexivity|]).
all: repeat split; try congruence; eauto.
all: try (intros row Hin; simpl in Hin; intuition congruence).
- intros row [?|[?|[?|[[= <-]|[]]]]]; try done. by exists salt.
- intros row [?|[?|[?|[[= <-]|[]]]]]; try done. by exists salt.
- intros Hno. destruct (Hno _ ltac:(simpl; eauto 6)).
Qed.

(** Membership of an insert in a short list of calls, by cases. *)
Ltac exec_cases :=
  let row := fresh "row" in
  let Hin := fresh "Hin" in
  intros row Hin; simpl in Hin;
  repeat (destruct Hin as [Hin|Hin]; [try discriminate Hin|]);
  [try (injection Hin as <-).. | destruct Hin].

(** C9 (the UID is chosen by the store). The UID of the caller's object
plays no part in [Create]: with any other UID the answer and the world are
the same; the row that is inserted and the object that is answered carry the
string drawn from [uuid.NewString()]. *)
Theorem Create_UID env ctx v w uid :
  ∃ r v' w' cs,
    Create s env ctx v w = (r, v', w')
    ∧ Create s env ctx (SecureValue.with_UID uid v) w
      = (r, SecureValue.with_UID uid v', w')
    ∧ calls w' = calls w ++ cs
    ∧ (∀ row, In (CallExec row) cs → secureValueRow.UID row = NewString env)
    ∧ (∀ obj, r = Ok obj →
         SecureValue.UID obj = NewString env
         ∧ ∃ row, table w' = table w ++ [row]
                  ∧ secureValueRow.UID row = NewString env).
Proof.
rewrite (Create_run env ctx (SecureValue.with_UID uid v) w).
change (SecureValue.Name (SecureValue.with_UID uid v))
  with (SecureValue.Name v).
change (SecureValue.Spec (SecureValue.with_UID uid v))
  with (SecureValue.Spec v).
change (salty (SecureValue.with_UID uid v)) with (salty v).
Create_cases env ctx v w.
1, 2, 9:
  eexists _, v, w, []; (split; [reflexivity|]);
  rewrite app_nil_r; repeat split; done.
all: try rewrite Hkey.
all: eexists _, _, _, _; (split; [reflexivity|]); (split; [reflexivity|]).
all: split; [reflexivity|]; split; [by exec_cases|]; try done.
intros obj [= <-]. split; [done|]. by eexists.
Qed.

(** C10 (Create writes the creation timestamp of its argument). Whatever
the run, the caller's object is left as it was but for its
[CreationTimestamp]; once the three checks have passed that field holds the
current time, and the row sent to the insert was built from it; when a check
fails the object is untouched. *)
Theorem Create_mutates_CreationTimestamp env ctx v w :
  ∃ r v' w' cs,
    Create s env ctx v w = (r, v', w')
    ∧ calls w' = calls w ++ cs
    ∧ v' = SecureValue.with_CreationTimestamp
             (SecureValue.CreationTimestamp v') v
    ∧ (validated ctx v →
         SecureValue.CreationTimestamp v' = metav1.NewTime (Now env))
    ∧ (¬ validated ctx v → v' = v)
    ∧ (∀ row, In (CallExec row) cs →
         secureValueRow.Created row = time.Time_UnixMilli (Now env)).
Proof.
Create_cases env ctx v w.
1, 2, 9:
  eexists _, v, w, []; (split; [reflexivity|]);
  rewrite app_nil_r; repeat split; try done;
  [ apply with_CreationTimestamp_same
  | intros Hval; exfalso; revert Hval;
    first [ by apply not_validated_name | by apply not_validated_value
          | by apply not_validated_auth ] ].
all: eexists _, _, _, _; (split; [reflexivity|]); (split; [reflexivity|]).
all: split; [reflexivity|]; split; [done|]; split.
all: try (intros Hno; destruct Hno; by repeat split).
all: by exec_cases.
Qed.

Lemma Read_run ctx ns name w :
  Read ctx ns name w =
  (match sqlSecureValueList (request ns name) (table w) with
   | row :: _ => toK8s row
   | [] => Err (Errorf "not found")
   end, logged w [CallQuery (request ns name)]).
Proof.
unfold Read, mbind, M_bind. rewrite get_run.
by destruct (sqlSecureValueList _ _).
Qed.

Lemma Decrypt_run ctx ns name w :
  Decrypt s ctx ns name w =
  match sqlSecureValueList (request ns name) (table w) with
  | row :: _ =>
    let cs :=
      CallQuery (request ns name)
      :: (if bool_decide (secureValueRow.APIs row ≠ "")
          then [CallPrintf "MAKE SURE ctx is an app that can read: %s\n"]
          else []) in
    match toK8s row with
    | Ok v =>
      (value ← Decode (keeper s) (stored row);
       Ok (SecureValue.with_Value value v),
       logged w (cs ++ [CallDecode (stored row)]))
    | Err e => (Err e, logged w cs)
    | Panic msg => (Panic msg, logged w cs)
    end
  | [] => (Err (Errorf "not found"), logged w [CallQuery (request ns name)])
  end.
Proof.
unfold Decrypt, mbind at 1, M_bind at 1. rewrite get_run.
destruct (sqlSecureValueList _ _) as [|row rows]; [done|].
unfold mbind, M_bind, mret, M_ret, lift, Printf, call, keeper_Decode, logged,
  stored.
simpl. case_bool_decide; simpl.
all: destruct (toK8s row) as [v|e|msg]; simpl; rewrite <- ?app_assoc;
  [|done..].
all: by destruct (Decode (keeper s) _).
Qed.

(** C3 (the value is write-only). After a successful [Create] of [v]: the
object [Create] answers has no value; [Read] of the namespace and name of [v]
answers that same object, so without a value; and [Decrypt] answers it with
the plaintext of [v], obtained from the keeper's [Decode] on the value, salt,
keeper and address of the stored row. *)
Theorem Create_write_only env ctx ctx' v w obj v' w' :
  keeper_roundtrip (keeper s) →
  Create s env ctx v w = (Ok obj, v', w') →
  SecureValueSpec.Value (SecureValue.Spec obj) = ""
  ∧ (∃ w'',
       Read ctx' (SecureValue.Namespace v) (SecureValue.Name v) w'
       = (Ok obj, w''))
  ∧ (∃ row w'' cs,
       In row (table w')
       ∧ Decrypt s ctx' (SecureValue.Namespace v) (SecureValue.Name v) w'
         = (Ok (SecureValue.with_Value
                  (SecureValueSpec.Value (SecureValue.Spec v)) obj), w'')
       ∧ calls w'' = calls w' ++ cs ++ [CallDecode (stored row)]).
Proof.
intros Hkeeper. Create_cases env ctx v w; intros [= <- <- <-].
set (v1 := SecureValue.with_CreationTimestamp _ v) in *.
set (row := created_row _ _ _ _ _) in *.
assert (sqlSecureValueList
          (request (SecureValue.Namespace v) (SecureValue.Name v))
          (table w ++ [row]) = [row]) as Hq.
{ apply (sqlSecureValueList_inserted row); done. }
pose proof (toK8s_created_row (NewString env) a v1 salt value) as Hk.
fold row in Hk.
split; [done|]. split.
- rewrite Read_run. cbn [table]. rewrite Hq. cbv iota beta. rewrite Hk.
  by eexists.
- exists row. rewrite Decrypt_run. cbn [table]. rewrite Hq.
  cbv iota beta zeta. rewrite Hk.
  assert (Decode (keeper s) (stored row)
          = Ok (SecureValueSpec.Value (SecureValue.Spec v))) as ->.
  { apply Hkeeper. exact Henc. }
  eexists _, _. split; [apply in_or_app; right; by left|].
  split; reflexivity.
Qed.

(** C6 (not found), for [Read] and [Decrypt]. For a name that is not empty
and a table without a row of that namespace and name, [Read] and [Decrypt] query the
table and fail with "not found" (NotFound); [Delete] is not implemented and
panics on every input. *)
Theorem not_found ctx ns name w :
  name ≠ "" →
  (∀ r, In r (table w) →
        ¬ (secureValueRow.Namespace r = ns ∧ secureValueRow.Name r = name)) →
  Read ctx ns name w
  = (Err (Errorf "not found"), logged w [CallQuery (request ns name)])
  ∧ Decrypt s ctx ns name w
    = (Err (Errorf "not found"), logged w [CallQuery (request ns name)])
  ∧ error_class (Errorf "not found") = NotFound
  ∧ Delete ctx ns name w = (Panic "unimplemented", w).
Proof.
intros Hname Habs.
rewrite Read_run, Decrypt_run, sqlSecureValueList_absent by done.
done.
Qed.

Lemma List_loop_mapM selector rows : ∀ items,
  List_loop selector rows items =
  (objs ← mapM toK8s rows;
   Ok (items ++ List.filter (matches (Some selector)) objs)).
Proof.
induction rows as [|row rows IH]; intros items; simpl.
- by rewrite app_nil_r.
- destruct (toK8s row) as [obj|e|msg]; simpl; [|done..].
  rewrite IH. destruct (mapM toK8s rows) as [objs|e|msg]; simpl; [|done..].
  destruct (labels.Matches selector _); [|done].
  by rewrite <- app_assoc.
Qed.

Lemma filter_true {A} (l : list A) : List.filter (λ _, true) l = l.
Proof. induction l as [|x l IH]; simpl; congruence. Qed.

Lemma sqlSecureValueList_namespace ns tbl :
  sqlSecureValueList (request ns "") tbl = rows_of_namespace ns tbl.
Proof.
unfold sqlSecureValueList, rows_of_namespace. apply List.filter_ext.
intros r. unfold selected. simpl. apply andb_true_r.
Qed.

Lemma SelectorFromSet_empty ls :
  labels.Matches (labels.SelectorFromSet ∅) ls = true.
Proof. apply bool_decide_eq_true_2, map_Forall_empty. Qed.

(** C7 (List filtering). [List] sends one query and answers, of the decoded
rows of the namespace, those whose labels the selector matches, in the order
of the table; a nil selector, [labels.Everything] and the selector of the
empty set all keep every object. *)
Theorem List_filtering ctx ns options w :
  List ctx ns (Some options) w
  = (List_spec ns (internalversion.LabelSelector options) (table w),
     logged w [CallQuery (request ns "")])
  ∧ List_spec ns None (table w)
    = mapM toK8s (rows_of_namespace ns (table w))
  ∧ List_spec ns (Some labels.Everything) (table w)
    = List_spec ns None (table w)
  ∧ List_spec ns (Some (labels.SelectorFromSet ∅)) (table w)
    = List_spec ns None (table w).
Proof.
split; [|split; [|split]].
- unfold List, List_spec, mbind at 1, M_bind, Query, lift, logged. simpl.
  rewrite sqlSecureValueList_namespace.
  destruct (internalversion.LabelSelector options) as [selector|].
  + by rewrite List_loop_mapM.
  + rewrite List_loop_mapM.
    destruct (mapM toK8s _) as [objs|e|msg]; simpl; [|done..].
    done.
- unfold List_spec.
  destruct (mapM toK8s _) as [objs|e|msg]; simpl; [|done..].
  f_equal. apply filter_true.
- done.
- unfold List_spec.
  destruct (mapM toK8s _) as [objs|e|msg]; [|done..].
  unfold mbind, result_bind. apply (f_equal Ok), List.filter_ext.
  intros obj. apply SelectorFromSet_empty.
Qed.

(** [Decrypt] makes no use of the caller's context. *)
Lemma Decrypt_ignores_context ctx ctx' ns name w :
  Decrypt s ctx ns name w = Decrypt s ctx' ns name w.
Proof. reflexivity. Qed.

(** With an empty name the request of [get] is the request of [List]: the
first row of the namespace is found, whatever its name. *)
Lemma get_empty_name ctx ns row rows w :
  rows_of_namespace ns (table w) = row :: rows →
  get ctx ns "" w = (Ok row, logged w [CallQuery (request ns "")]).
Proof.
intros Hrows. by rewrite get_run, sqlSecureValueList_namespace, Hrows.
Qed.

(** *** Further properties of the current revision *)

Lemma toK8s_redact row : toK8s (redact row) = toK8s row.
Proof. reflexivity. Qed.

Lemma sqlSecureValueList_redact req tbl :
  sqlSecureValueList req (List.map redact tbl)
  = List.map redact (sqlSecureValueList req tbl).
Proof.
unfold sqlSecureValueList.
induction tbl as [|row tbl IH]; [done|]. simpl.
change (selected req (redact row)) with (selected req row).
destruct (selected req row); simpl; by rewrite IH.
Qed.

Lemma List_loop_redact selector rows : ∀ items,
  List_loop selector (List.map redact rows) items
  = List_loop selector rows items.
Proof.
induction rows as [|row rows IH]; intros items; [done|]. simpl.
rewrite toK8s_redact. destruct (toK8s row) as [obj|e|msg]; simpl; [|done..].
apply IH.
Qed.

(** The answers of [Read] and [List] do not depend on the salt, the encoded
value, the keeper or the address of any row: blanking these columns in the
whole table changes neither answer. *)
Theorem Read_List_hide_secret_columns ctx ns name options w :
  (Read ctx ns name (redacted w)).1 = (Read ctx ns name w).1
  ∧ (List ctx ns options (redacted w)).1 = (List ctx ns options w).1.
Proof.
split.
- rewrite !Read_run. cbn [fst table redacted].
  rewrite sqlSecureValueList_redact.
  destruct (sqlSecureValueList _ _) as [|row rows]; [done|].
  apply toK8s_redact.
- destruct options as [options|]; [|done].
  unfold List, mbind, M_bind, Query, lift. cbn [fst table redacted].
  rewrite sqlSecureValueList_redact. apply List_loop_redact.
Qed.

Lemma mapM_toK8s_Ok rows :
  is_Ok (mapM toK8s rows) = true
  ↔ Forall (λ row, is_Ok (toK8s row) = true) rows.
Proof.
induction rows as [|row rows IH]; simpl.
- split; [constructor|done].
- destruct (toK8s row) as [obj|e|msg] eqn:Hrow; simpl.
  + destruct (mapM toK8s rows) as [objs|e|msg]; simpl in *.
    * split; [|done]. intros _. constructor; [by rewrite Hrow|by apply IH].
    * split; [done|]. intros Hall. apply IH. by inversion Hall.
    * split; [done|]. intros Hall. apply IH. by inversion Hall.
  + split; [done|]. intros Hall. inversion Hall as [|?? Hhd]. by rewrite Hrow in Hhd.
  + split; [done|]. intros Hall. inversion Hall as [|?? Hhd]. by rewrite Hrow in Hhd.
Qed.

Lemma List_run ctx ns options w :
  List ctx ns (Some options) w
  = (List_spec ns (internalversion.LabelSelector options) (table w),
     logged w [CallQuery (request ns "")]).
Proof.
unfold List, List_spec, mbind at 1, M_bind, Query, lift, logged. simpl.
rewrite sqlSecureValueList_namespace.
destruct (internalversion.LabelSelector options) as [selector|];
  by rewrite List_loop_mapM.
Qed.

(** [List] answers a list exactly when every row of the namespace decodes:
one row with a column that is not JSON makes the whole call fail, whatever
the selector; rows of other namespaces do not matter. *)
Theorem List_all_or_nothing ctx ns options w :
  is_Ok (List ctx ns (Some options) w).1 = true
  ↔ Forall (λ row, is_Ok (toK8s row) = true)
      (rows_of_namespace ns (table w)).
Proof.
rewrite List_run. cbn [fst]. rewrite <- mapM_toK8s_Ok. unfold List_spec.
by destruct (mapM toK8s _).
Qed.

(** [Decrypt] is [Read] followed by one call of the keeper: when [Read]
fails, [Decrypt] fails with the same error and the keeper is not called;
when [Read] answers an object, [Decrypt] hands the stored columns of a row of
the table to [Decode], as its last call, and answers that object with the
decoded value, or the keeper's error. Neither changes the table. *)
Theorem Decrypt_after_Read ctx ns name w :
  ∃ cs,
    (Decrypt s ctx ns name w).2 = logged w cs
    ∧ (Read ctx ns name w).2 = logged w [CallQuery (request ns name)]
    ∧ match (Read ctx ns name w).1 with
      | Ok obj =>
        ∃ row pre,
          In row (table w)
          ∧ (Decrypt s ctx ns name w).1
            = (value ← Decode (keeper s) (stored row);
               Ok (SecureValue.with_Value value obj))
          ∧ cs = pre ++ [CallDecode (stored row)]
          ∧ ∀ v, ¬ In (CallDecode v) pre
      | Err e =>
        (Decrypt s ctx ns name w).1 = Err e ∧ ∀ v, ¬ In (CallDecode v) cs
      | Panic msg =>
        (Decrypt s ctx ns name w).1 = Panic msg
        ∧ ∀ v, ¬ In (CallDecode v) cs
      end.
Proof.
rewrite Read_run, Decrypt_run. cbn [fst snd].
destruct (sqlSecureValueList (request ns name) (table w))
  as [|row rows] eqn:Hq.
{ eexists. split; [reflexivity|]. split; [done|]. split; [done|].
  intros v [?|[]]; done. }
assert (In row (table w)) as Hrow.
{ assert (In row (sqlSecureValueList (request ns name) (table w))) as Hin
    by (rewrite Hq; by left).
  unfold sqlSecureValueList in Hin. by apply List.filter_In in Hin as [? _]. }
cbv zeta. destruct (toK8s row) as [obj|e|msg]; cbn [fst snd].
- eexists. split; [reflexivity|]. split; [done|].
  eexists row, _. split; [done|]. split; [done|]. split; [reflexivity|].
  intros v [?|Hin]; [done|]. by case_bool_decide; destruct Hin.
- eexists. split; [reflexivity|]. split; [done|]. split; [done|].
  intros v [?|Hin]; [done|]. by case_bool_decide; destruct Hin.
- eexists. split; [reflexivity|]. split; [done|]. split; [done|].
  intros v [?|Hin]; [done|]. by case_bool_decide; destruct Hin.
Qed.

(** Whatever the submitted object says, the row [Create] sends to the insert
is stamped from the context and the random source: created-by and
updated-by are the caller's UID, the salt is the string drawn from
[GetRandomString(10)], and the keeper and address columns are empty. *)
Theorem Create_row_provenance env ctx v w :
  ∃ r v' w' cs,
    Create s env ctx v w = (r, v', w')
    ∧ calls w' = calls w ++ cs
    ∧ ∀ row, In (CallExec row) cs →
        ∃ a salt,
          claims.From ctx = Some a
          ∧ GetRandomString env 10 = Ok salt
          ∧ secureValueRow.CreatedBy row = claims.GetUID a
          ∧ secureValueRow.UpdatedBy row = claims.GetUID a
          ∧ secureValueRow.Salt row = salt
          ∧ secureValueRow.Keeper row = ""
          ∧ secureValueRow.Addr row = "".
Proof.
Create_cases env ctx v w.
1, 2, 9: by eexists _, v, w, []; rewrite app_nil_r.
all: eexists _, _, _, _; (split; [reflexivity|]); (split; [reflexivity|]).
all: exec_cases; by eexists a, _.
Qed.

(** The object a successful [Create] answers: name, namespace, title, labels
and authorized APIs of the submitted object, the generated UID, the caller's
UID as created-by, no value, and as creation time the current time cut down
to the millisecond. *)
Theorem Create_answer env ctx v w obj v' w' :
  Create s env ctx v w = (Ok obj, v', w') →
  SecureValue.Name obj = SecureValue.Name v
  ∧ SecureValue.Namespace obj = SecureValue.Namespace v
  ∧ SecureValueSpec.Title (SecureValue.Spec obj)
    = SecureValueSpec.Title (SecureValue.Spec v)
  ∧ SecureValue.Labels obj = SecureValue.Labels v
  ∧ SecureValueSpec.APIs (SecureValue.Spec obj)
    = SecureValueSpec.APIs (SecureValue.Spec v)
  ∧ SecureValue.UID obj = NewString env
  ∧ (∃ a, claims.From ctx = Some a
          ∧ utils.GetCreatedBy obj = claims.GetUID a)
  ∧ SecureValueSpec.Value (SecureValue.Spec obj) = ""
  ∧ SecureValue.CreationTimestamp obj
    = time.UnixMilli (time.Time_UnixMilli (Now env)).
Proof.
Create_cases env ctx v w; intros [= <- <- <-].
repeat split. by exists a.
Qed.

(** The resource version of a new object comes from the submitted object
when it carries an update timestamp: the row's [Updated] is that timestamp
in milliseconds, not the time of the call. Without one, [Updated] equals
[Created], the time of the call in milliseconds, and the answer carries
neither updated-by nor an update timestamp. *)
Theorem Create_resource_version env ctx v w obj v' w' :
  Create s env ctx v w = (Ok obj, v', w') →
  match utils.GetUpdatedTimestamp v with
  | Some t =>
    SecureValue.ResourceVersion obj = Some (time.Time_UnixMilli t)
  | None =>
    SecureValue.ResourceVersion obj = Some (time.Time_UnixMilli (Now env))
    ∧ utils.GetUpdatedBy obj = ""
    ∧ utils.GetUpdatedTimestamp obj = None
  end.
Proof.
Create_cases env ctx v w; intros [= <- <- <-].
unfold utils.GetUpdatedTimestamp, utils.GetUpdatedBy.
destruct v as [? ? ? ? ? ? ? ? ? [t|] ?]; cbn; [done|].
by rewrite bool_decide_eq_false_2 by (by intros []).
Qed.

(** [Create] changes the table exactly when it answers an object, and then
by one row at the end; in every other run the table is as it was. *)
Theorem Create_table_delta env ctx v w :
  ∃ r v' w',
    Create s env ctx v w = (r, v', w')
    ∧ (is_Ok r = true → ∃ row, table w' = table w ++ [row])
    ∧ (is_Ok r = false → table w' = table w).
Proof.
Create_cases env ctx v w.
all: eexists _, _, _; (split; [reflexivity|]); split; try done.
intros _. by eexists.
Qed.

Lemma mapM_toK8s_snoc rows row :
  mapM toK8s (rows ++ [row])
  = (objs ← mapM toK8s rows; obj ← toK8s row; Ok (objs ++ [obj])).
Proof.
induction rows as [|r rows IH]; simpl.
- by destruct (toK8s row).
- destruct (toK8s r) as [o|e|msg]; simpl; [|done..].
  rewrite IH. destruct (mapM toK8s rows) as [objs|e|msg]; simpl; [|done..].
  by destruct (toK8s row).
Qed.

(** [List] after a successful [Create]: the listing of a namespace is the
listing before the call, followed by the object [Create] answered when that
object is of the namespace and the selector matches its labels. *)
Theorem Create_then_List env ctx ctx' v w obj v' w' ns options :
  Create s env ctx v w = (Ok obj, v', w') →
  (List ctx' ns (Some options) w').1
  = match (List ctx' ns (Some options) w).1 with
    | Ok objs =>
      Ok (objs ++
          if String.eqb (SecureValue.Namespace v) ns
             && matches (internalversion.LabelSelector options) obj
          then [obj] else [])
    | Err e => Err e
    | Panic msg => Panic msg
    end.
Proof.
Create_cases env ctx v w; intros [= <- <- <-].
rewrite !List_run. cbn [fst table]. unfold List_spec, rows_of_namespace.
rewrite List.filter_app. cbn [List.filter].
set (row := created_row _ _ _ _ _).
change (secureValueRow.Namespace row) with (SecureValue.Namespace v).
destruct (String.eqb (SecureValue.Namespace v) ns); cbn [andb].
- rewrite mapM_toK8s_snoc. unfold row at 1. rewrite toK8s_created_row.
  destruct (mapM toK8s _) as [objs|e|msg]; simpl; [|done..].
  rewrite List.filter_app. simpl. by destruct (matches _ _).
- rewrite app_nil_r.
  destruct (mapM toK8s _) as [objs|e|msg]; simpl; [|done..].
  by rewrite app_nil_r.
Qed.

(** *** The REST adapter *)

Lemma secretStorage_Get_run ctx name w :
  secretStorage_Get ctx name w
  = (as_Object
       match sqlSecureValueList (request (request.NamespaceValue ctx) name)
               (table w) with
       | row :: _ => toK8s row
       | [] => Err (Errorf "not found")
       end,
     logged w [CallQuery (request (request.NamespaceValue ctx) name)]).
Proof. unfold secretStorage_Get. by rewrite Read_run. Qed.

(** [secretStorage.Update] of a name without a row: it fails with "not
found" after one query, reports nothing created and leaves the table as it
was, whatever the update and whatever [forceAllowCreate] asks for. *)
Theorem secretStorage_Update_missing env ctx name UpdatedObject w :
  name ≠ "" →
  (∀ r, In r (table w) →
        ¬ (secureValueRow.Namespace r = request.NamespaceValue ctx
           ∧ secureValueRow.Name r = name)) →
  secretStorage_Update s env ctx name UpdatedObject w
  = (Err (Errorf "not found"), false,
     logged w [CallQuery (request (request.NamespaceValue ctx) name)]).
Proof.
intros Hname Habs. unfold secretStorage_Update.
rewrite secretStorage_Get_run, sqlSecureValueList_absent by done.
done.
Qed.

(** [secretStorage.Update] never updates in place. It answers an object only
by creating one ([created] is true); when [created] is false the table is as
it was; and once the object read has been updated into a SecureValue that
still carries a UID, the call ends in the panic of the store's [Update]. *)
Theorem secretStorage_Update_never_in_place env ctx name UpdatedObject w :
  ∃ r created w',
    secretStorage_Update s env ctx name UpdatedObject w = (r, created, w')
    ∧ (is_Ok r = true → created = true)
    ∧ (created = false → table w' = table w)
    ∧ (∀ old sv,
         (secretStorage_Get ctx name w).1 = Ok old →
         UpdatedObject old = Ok (runtime.ObjSecureValue sv) →
         SecureValue.UID sv ≠ "" →
         r = Panic "unimplemented").
Proof.
unfold secretStorage_Update.
pose proof (secretStorage_Get_run ctx name w) as Hget.
destruct (secretStorage_Get ctx name w) as [r0 w1].
injection Hget as _ ->. clear.
destruct r0 as [old|e|msg]; [|by eexists _, _, _..].
destruct (UpdatedObject old) as [[sv|kind]|e|msg] eqn:Hupd;
  [| |by eexists _, _, _; repeat split; try done; intros ?? [= <-]; congruence..].
- case_bool_decide as Huid.
  + unfold secretStorage_Create.
    destruct (Create s env (request.identity ctx) sv _) as [[r sv'] w2].
    eexists _, _, _. split; [reflexivity|]. repeat split; try done.
    intros ?? [= <-]. rewrite Hupd. by intros [= <-].
  + unfold Update, lift. eexists _, _, _. split; [reflexivity|].
    repeat split; done.
- eexists _, _, _. split; [reflexivity|]. repeat split; try done.
  intros ?? [= <-]. by rewrite Hupd.
Qed.

End StoreFacts.

(** ** The earlier revision *)

Section EarlierFacts.
Context `{Json}.

(** With an identity, the earlier [Create] accepts an object without a name
and without a value: it inserts a row under a generated name. *)
Lemma earlier_Create_generates_name env ctx a v w :
  claims.From ctx = Some a →
  SecureValue.Name v = "" →
  existsb (same_key (earlier.Create_row env a v)) (table w) = false →
  ∃ obj,
    earlier.Create env ctx v w
    = (Ok obj,
       {| table := table w ++ [earlier.Create_row env a v];
          calls := calls w ++ [CallPrintf "CREATE: %s\n";
                               CallExec (earlier.Create_row env a v)] |})
    ∧ SecureValue.Name obj = earlier.GenerateShortUID env 1.
Proof.
intros Ha Hname Hkey. unfold earlier.Create. rewrite Ha.
unfold mbind, M_bind, Printf, call, Exec, lift, sqlSecureValueInsert.
cbn [table calls]. rewrite Hkey.
assert (toK8s (earlier.Create_row env a v)
        = Ok (decoded (earlier.Create_row env a v)
                (SecureValueSpec.APIs (SecureValue.Spec v))
                (SecureValue.Annotations v) (SecureValue.Labels v))) as ->.
{ apply toK8s_Ok; cbn [secureValueRow.APIs secureValueRow.Annotations
                        secureValueRow.Labels earlier.Create_row].
  - apply column_list_Marshal.
  - apply column_map_Marshal, map_size_empty_inv.
  - apply column_map_Marshal, map_size_empty_inv. }
eexists. split.
- by rewrite <- app_assoc.
- cbn [SecureValue.Name decoded secureValueRow.Name earlier.Create_row].
  by rewrite bool_decide_eq_true_2.
Qed.

(** The earlier [List] answers the empty list, whatever the table holds. *)
Lemma earlier_List_is_a_stub ctx ns options w :
  earlier.List ctx ns options w = (Ok [], w).
Proof. reflexivity. Qed.

End EarlierFacts.

(** ** The store on concrete inputs *)

Lemma strip_append p s : fixture.strip p (String.append p s) = Some s.
Proof.
induction p as [|a p IH]; simpl; [by destruct s|].
by rewrite Ascii.eqb_refl.
Qed.

Lemma salted_roundtrip : keeper_roundtrip fixture.salted.
Proof.
intros plaintext salt encoded [= <-]. simpl. by rewrite strip_append.
Qed.

(** C2 (Decrypt authorization, on the failing input). The stored row
authorizes "app-a" alone; [Decrypt] called by "app-b", and called with no
identity at all, answers the plaintext. *)
Theorem Decrypt_does_not_check_authorized_APIs :
  @column_list jsontext_laws.codec
    (secureValueRow.APIs (fixture.row "db-pass" "a")) = Ok ["app-a"]
  ∧ @decrypted_for jsontext_laws.codec (fixture.user "app-b")
  ∧ @decrypted_for jsontext_laws.codec fixture.anonymous.
Proof.
split; [by vm_compute|].
split; eexists _, _; (split; [vm_compute; reflexivity|]); split; reflexivity.
Qed.

(** C6 (not found), for [Delete]: it panics, also on the empty table, so the
property does not hold of the three operations. *)
Lemma not_found_claim_fails : ¬ not_found_claim.
Proof.
intros Hclaim.
destruct (Hclaim jsontext_laws.codec fixture.store (fixture.user "user:1")
            "ns" "db-pass" fixture.empty) as (_ & (e & He & _) & _).
- by intros r [].
- discriminate He.
Qed.

(** [Read] of the empty name on the one-row table finds the row "db-pass". *)
Lemma Read_empty_name :
  ∃ obj w',
    @Read jsontext_laws.codec (fixture.user "user:1") "ns" "" fixture.one_row
    = (Ok obj, w')
    ∧ SecureValue.Name obj = "db-pass".
Proof. eexists _, _. split; [vm_compute; reflexivity|]. reflexivity. Qed.

(** ** Instances of the theorems *)

(** After Create({name: "db-pass", value: "s3cr3t"}) by "user:1": the answer
has no value, "app-b" reads the same object, and decrypts "s3cr3t". *)
Lemma Create_write_only_witness :
  ∃ obj v' w',
    @Create jsontext_laws.codec fixture.store fixture.env (fixture.user "user:1")
      fixture.db_pass fixture.empty = (Ok obj, v', w')
    ∧ SecureValueSpec.Value (SecureValue.Spec obj) = ""
    ∧ (∃ w'',
         @Read jsontext_laws.codec (fixture.user "app-b") "ns" "db-pass" w'
         = (Ok obj, w''))
    ∧ (∃ row w'' cs,
         In row (table w')
         ∧ @Decrypt jsontext_laws.codec fixture.store (fixture.user "app-b")
             "ns" "db-pass" w'
           = (Ok (SecureValue.with_Value "s3cr3t" obj), w'')
         ∧ calls w'' = calls w' ++ cs ++ [CallDecode (stored row)]).
Proof.
eexists _, _, _. split; [vm_compute; reflexivity|].
eapply (@Create_write_only jsontext_laws.codec fixture.store fixture.env
         (fixture.user "user:1") (fixture.user "app-b") fixture.db_pass
         fixture.empty _ _ _).
- exact salted_roundtrip.
- vm_compute. reflexivity.
Defined.

(** The three checks of [Create], each on an input of its own. *)
Lemma Create_validation_witness :
  @Create jsontext_laws.codec fixture.store fixture.env fixture.anonymous
    fixture.db_pass fixture.empty
  = (Err (Errorf "missing auth info in context"), fixture.db_pass,
     fixture.empty)
  ∧ (∃ e,
       @Create jsontext_laws.codec fixture.store fixture.env
         (fixture.user "user:1") (SecureValue.with_Value "" fixture.db_pass)
         fixture.empty
       = (Err e, SecureValue.with_Value "" fixture.db_pass, fixture.empty)
       ∧ error_class e = InvalidArgument)
  ∧ (∃ r w',
       @Create jsontext_laws.codec fixture.store fixture.env
         (fixture.user "user:1") fixture.db_pass fixture.empty
       = (r, SecureValue.with_CreationTimestamp (Now fixture.env)
               fixture.db_pass, w')
       ∧ is_Ok r = true).
Proof.
split; [|split].
- apply (@Create_validation jsontext_laws.codec fixture.store fixture.env
           fixture.anonymous fixture.db_pass fixture.empty).
  reflexivity.
- destruct (@Create_validation jsontext_laws.codec fixture.store fixture.env
              (fixture.user "user:1")
              (SecureValue.with_Value "" fixture.db_pass) fixture.empty)
    as (_ & Hempty & _).
  apply (Hempty {| claims.GetUID := "user:1" |}); [reflexivity|].
  right. reflexivity.
- destruct (@Create_validation jsontext_laws.codec fixture.store fixture.env
              (fixture.user "user:1") fixture.db_pass fixture.empty)
    as (_ & _ & Hpass).
  destruct (Hpass {| claims.GetUID := "user:1" |})
    as (r & w' & cs & Hrun & _ & Hok); [reflexivity|discriminate..|].
  exists r, w'. split; [exact Hrun|].
  apply (Hok "Xy3kQ9zLmA" "Xy3kQ9zLmAs3cr3t"); reflexivity.
Defined.

(** The row of the query tests: created at 1234, updated at 5678. *)
Lemma toK8s_metadata_witness :
  ∃ obj,
    @toK8s jsontext_laws.codec (fixture.row "db-pass" "a") = Ok obj
    ∧ SecureValue.ResourceVersion obj = Some 5678
    ∧ utils.GetCreatedBy obj = "user:ryan"
    ∧ utils.GetUpdatedBy obj = "user:cameron"
    ∧ utils.GetUpdatedTimestamp obj = Some 5678000000.
Proof.
pose proof (@toK8s_metadata jsontext_laws.codec (fixture.row "db-pass" "a")) as Hm.
destruct (@toK8s jsontext_laws.codec (fixture.row "db-pass" "a"))
  as [obj|e|msg] eqn:Hrow; [|vm_compute in Hrow; discriminate Hrow..].
exists obj. destruct Hm as (Hrv & Hcb & Hupd & _ & _).
destruct Hupd as [Hub Hut]; [discriminate|].
repeat split; assumption.
Defined.

(** No row "api-key" in the one-row table. *)
Lemma not_found_witness :
  @Read jsontext_laws.codec (fixture.user "user:1") "ns" "api-key" fixture.one_row
  = (Err (Errorf "not found"),
     logged fixture.one_row [CallQuery (request "ns" "api-key")])
  ∧ @Decrypt jsontext_laws.codec fixture.store (fixture.user "user:1") "ns"
      "api-key" fixture.one_row
    = (Err (Errorf "not found"),
       logged fixture.one_row [CallQuery (request "ns" "api-key")])
  ∧ error_class (Errorf "not found") = NotFound
  ∧ Delete (fixture.user "user:1") "ns" "api-key" fixture.one_row
    = (Panic "unimplemented", fixture.one_row).
Proof.
apply (@not_found jsontext_laws.codec fixture.store (fixture.user "user:1") "ns"
         "api-key" fixture.one_row).
- discriminate.
- intros r [<-|[]] [_ Hname]. discriminate Hname.
Defined.

(** Section 8, property 6: of the rows labelled team=a, team=b, team=a, the
selector team=a keeps the first and the third, in that order. *)
Lemma List_filtering_witness :
  fixture.names
    (@List jsontext_laws.codec (fixture.user "user:1") "ns"
       (Some (fixture.team "a")) fixture.three_rows).1
  = Ok ["first"; "third"].
Proof.
destruct (@List_filtering jsontext_laws.codec (fixture.user "user:1") "ns"
            (fixture.team "a") fixture.three_rows) as (Hrun & _).
rewrite Hrun. vm_compute. reflexivity.
Defined.

(** A keeper that cannot be reached: [Create] answers its error and the
table stays empty. *)
Lemma Create_encode_then_insert_witness :
  ∃ v' w',
    @Create jsontext_laws.codec fixture.store_unreachable fixture.env
      (fixture.user "user:1") fixture.db_pass fixture.empty
    = (Err (Errorf "keeper: context deadline exceeded"), v', w')
    ∧ table w' = []
    ∧ ∀ row, ¬ In (CallExec row) (calls w').
Proof.
destruct (@Create_encode_then_insert jsontext_laws.codec fixture.store_unreachable
            fixture.env (fixture.user "user:1") fixture.db_pass fixture.empty)
  as (r & v' & w' & cs & Hrun & Hcalls & _ & _ & _ & Henc).
destruct (Henc "Xy3kQ9zLmA" (Errorf "keeper: context deadline exceeded")
            eq_refl eq_refl) as (_ & Hr & Htable & Hno).
exists v', w'. rewrite <- Hr.
- split; [exact Hrun|]. split; [exact Htable|].
  rewrite Hcalls. exact Hno.
- repeat split; [by eexists|discriminate..].
Defined.

(** The caller's UID is not the one stored or answered. *)
Lemma Create_UID_witness :
  SecureValue.UID fixture.db_pass = "chosen-by-the-caller"
  ∧ ∃ obj v' w' row,
      @Create jsontext_laws.codec fixture.store fixture.env (fixture.user "user:1")
        fixture.db_pass fixture.empty = (Ok obj, v', w')
      ∧ SecureValue.UID obj = "0b54ab4c-7e5c-4f0e-9ad4-5b8b8e0f1c11"
      ∧ table w' = [row]
      ∧ secureValueRow.UID row = "0b54ab4c-7e5c-4f0e-9ad4-5b8b8e0f1c11".
Proof.
split; [reflexivity|].
destruct (@Create_UID jsontext_laws.codec fixture.store fixture.env
            (fixture.user "user:1") fixture.db_pass fixture.empty "")
  as (r & v' & w' & cs & Hrun & _ & _ & _ & Hok).
destruct r as [obj|e|msg];
  [|vm_compute in Hrun; discriminate Hrun..].
destruct (Hok obj eq_refl) as (Huid & row & Htable & Hrow).
exists obj, v', w', row.
split; [exact Hrun|]. split; [exact Huid|]. split; [exact Htable|exact Hrow].
Defined.

(** The caller's object after a [Create] that passed the checks. *)
Lemma Create_mutates_CreationTimestamp_witness :
  ∃ r v' w',
    @Create jsontext_laws.codec fixture.store fixture.env (fixture.user "user:1")
      fixture.db_pass fixture.empty = (r, v', w')
    ∧ SecureValue.CreationTimestamp fixture.db_pass = 0
    ∧ v' = SecureValue.with_CreationTimestamp 1700000000123456789
             fixture.db_pass.
Proof.
destruct (@Create_mutates_CreationTimestamp jsontext_laws.codec fixture.store
            fixture.env (fixture.user "user:1") fixture.db_pass fixture.empty)
  as (r & v' & w' & cs & Hrun & _ & Hframe & Hstamp & _).
exists r, v', w'. split; [exact Hrun|]. split; [reflexivity|].
rewrite Hframe, Hstamp; [reflexivity|].
repeat split; [by eexists|discriminate..].
Defined.

(** ** The component extensions hook *)

Section HookFacts.
Import pluginComponents.
Context {Component : Type}.
Implicit Types (item : @RegistryItem Component).
Implicit Types (items kept : list (@RegistryItem Component)).

Lemma foldl_loop_body_no_limit limit items :
  limit = None ∨ limit = Some 0 →
  ∀ comps ext,
    (foldl (loop_body limit) (comps, ext) items).1
    = comps ++ List.map component items.
Proof.
intros Hlimit. induction items as [|item items IH]; intros comps ext; simpl.
- by rewrite app_nil_r.
- assert (over_limit limit ext (pluginId item) = false) as ->
    by (by destruct Hlimit as [-> | ->]).
  rewrite IH. by rewrite <- app_assoc.
Qed.

(** Without a limit, or with the limit 0, the hook answers the components
of all the items registered for the extension point, in their order; in
development mode an invalid extension point id, or one missing from the
plugin's meta information, gives no component at all. *)
Theorem usePluginComponents_no_limit dev invalid missing registryState options :
  limitPerPlugin options = None ∨ limitPerPlugin options = Some 0 →
  components
    (usePluginComponents dev invalid missing registryState options)
  = if dev && (invalid || missing) then []
    else List.map (@component Component)
           (registered registryState (extensionPointId options)).
Proof.
intros Hlimit. unfold usePluginComponents.
destruct dev, invalid, missing; simpl; try done.
all: by rewrite foldl_loop_body_no_limit.
Qed.

Lemma of_plugin_snoc p items item :
  of_plugin p (items ++ [item])
  = (of_plugin p items + if decide (pluginId item = p) then 1 else 0)%nat.
Proof.
unfold of_plugin. rewrite filter_app, length_app. f_equal.
rewrite filter_cons. by destruct (decide (pluginId item = p)).
Qed.

Lemma loop_body_invariant limit seen state item :
  limit ≠ 0 →
  loop_invariant limit seen state →
  loop_invariant limit (seen ++ [item]) (loop_body (Some limit) state item).
Proof.
intros Hlimit (kept & Hcomps & Hsub & Hcount & Hext).
destruct state as [comps ext]. simpl in Hcomps, Hext. subst comps.
unfold loop_body, over_limit.
rewrite bool_decide_eq_true_2 by done. cbn [andb].
pose proof (Hext (pluginId item)) as Hp.
pose proof (Hcount (pluginId item)) as Hcp.
assert (1 ≤ cap limit)%nat as Hcap by (unfold cap; lia).
destruct (decide (of_plugin (pluginId item) seen = 0%nat)) as [Hzero|Hpos].
- (* the first item of its plugin *)
  rewrite Hp. exists (kept ++ [item]). cbn [fst snd].
  split; [by rewrite List.map_app|].
  split; [by apply sublist_app|].
  split.
  + intros p. rewrite !of_plugin_snoc, Hcount.
    destruct (decide (pluginId item = p)) as [<-|]; lia.
  + intros p. rewrite !of_plugin_snoc.
    destruct (decide (pluginId item = p)) as [<-|Hne].
    * rewrite lookup_insert_eq, lookup_insert_eq.
      rewrite decide_False by lia. simpl. do 2 f_equal. lia.
    * rewrite !lookup_insert_ne by done. rewrite Hext, !Nat.add_0_r. done.
- rewrite Hp. case_bool_decide as Hover.
  + (* the plugin has reached the limit *)
    exists kept. cbn [fst snd].
    split; [done|]. split; [by apply sublist_inserts_r|].
    split.
    * intros p. rewrite of_plugin_snoc, Hcount.
      destruct (decide (pluginId item = p)) as [<-|]; [|lia].
      unfold cap in *. lia.
    * intros p. rewrite of_plugin_snoc.
      destruct (decide (pluginId item = p)) as [<-|]; [|by rewrite Nat.add_0_r].
      rewrite Hp. by rewrite decide_False by lia.
  + (* below the limit *)
    exists (kept ++ [item]). cbn [fst snd].
    split; [by rewrite List.map_app|].
    split; [by apply sublist_app|].
    split.
    * intros p. rewrite !of_plugin_snoc, Hcount.
      destruct (decide (pluginId item = p)) as [<-|]; [|lia].
      unfold cap in *. lia.
    * intros p. rewrite !of_plugin_snoc.
      destruct (decide (pluginId item = p)) as [<-|Hne].
      -- rewrite lookup_insert_eq, Hp. simpl.
         rewrite decide_False by lia. f_equal. lia.
      -- rewrite lookup_insert_ne by done. by rewrite Hext, !Nat.add_0_r.
Qed.

Lemma foldl_loop_body_invariant limit items :
  limit ≠ 0 →
  loop_invariant limit items (foldl (loop_body (Some limit)) ([], ∅) items).
Proof.
intros Hlimit. induction items as [|item items IH] using rev_ind.
- exists []. by repeat split.
- rewrite foldl_snoc. by apply loop_body_invariant.
Qed.

(** With a limit other than 0 the hook answers the components of a sublist
of the registered items, in their order, that holds of each plugin as many
items as are registered, up to the limit; a limit below 1 still lets one
component per plugin through. *)
Theorem usePluginComponents_limit dev invalid missing registryState options limit :
  limitPerPlugin options = Some limit →
  limit ≠ 0 →
  dev && (invalid || missing) = false →
  ∃ kept,
    components
      (usePluginComponents dev invalid missing registryState options)
    = List.map (@component Component) kept
    ∧ kept `sublist_of` registered registryState (extensionPointId options)
    ∧ ∀ p,
        of_plugin p kept
        = Nat.min
            (of_plugin p
               (registered registryState (extensionPointId options)))
            (cap limit).
Proof.
intros Hopt Hlimit Hdev. unfold usePluginComponents. rewrite Hopt.
destruct (foldl_loop_body_invariant limit
            (registered registryState (extensionPointId options)) Hlimit)
  as (kept & Hcomps & Hsub & Hcount & _).
exists kept.
destruct dev, invalid, missing; simpl in Hdev; try done; simpl; done.
Qed.

End HookFacts.

(** ** The earlier revision, further *)

Section EarlierMore.
Context `{Json}.

(** With an identity, the earlier [Create] calls no keeper: it prints, then
sends to the insert a row whose value column is the plaintext of the
submitted object; when the call answers an object, the table holds that
row. *)
Theorem earlier_Create_stores_plaintext env ctx a v w :
  claims.From ctx = Some a →
  ∃ r row w',
    earlier.Create env ctx v w = (r, w')
    ∧ calls w' = calls w ++ [CallPrintf "CREATE: %s\n"; CallExec row]
    ∧ secureValueRow.Value row = SecureValueSpec.Value (SecureValue.Spec v)
    ∧ (is_Ok r = true → table w' = table w ++ [row]).
Proof.
intros Ha. unfold earlier.Create. rewrite Ha.
unfold mbind, M_bind, Printf, call, Exec, lift, sqlSecureValueInsert.
cbn [table calls].
destruct (existsb _ _); cbn [fst snd table calls].
- eexists _, (earlier.Create_row env a v), _. split; [reflexivity|].
  rewrite <- app_assoc. repeat split. done.
- eexists _, (earlier.Create_row env a v), _. split; [reflexivity|].
  rewrite <- app_assoc. repeat split.
Qed.

End EarlierMore.

(** ** Instances of the further theorems *)

(** The answer to Create({name: "db-pass", ...}) by "user:1". *)
Lemma Create_answer_witness :
  ∃ obj v' w',
    @Create jsontext_laws.codec fixture.store fixture.env
      (fixture.user "user:1") fixture.db_pass fixture.empty = (Ok obj, v', w')
    ∧ SecureValue.Name obj = "db-pass"
    ∧ SecureValue.Namespace obj = "ns"
    ∧ SecureValueSpec.Title (SecureValue.Spec obj) = "database password"
    ∧ SecureValue.Labels obj = {[ "team" := "a" ]}
    ∧ SecureValueSpec.APIs (SecureValue.Spec obj) = ["app-a"]
    ∧ SecureValue.UID obj = "0b54ab4c-7e5c-4f0e-9ad4-5b8b8e0f1c11"
    ∧ (∃ a, claims.From (fixture.user "user:1") = Some a
            ∧ utils.GetCreatedBy obj = claims.GetUID a)
    ∧ SecureValueSpec.Value (SecureValue.Spec obj) = ""
    ∧ SecureValue.CreationTimestamp obj = 1700000000123000000.
Proof.
eexists _, _, _. split; [vm_compute; reflexivity|].
eapply (@Create_answer jsontext_laws.codec fixture.store fixture.env
          (fixture.user "user:1") fixture.db_pass fixture.empty _ _ _).
vm_compute. reflexivity.
Defined.

(** Submitted with an update timestamp of 2020, the object comes back with
that timestamp as its resource version. *)
Lemma Create_resource_version_witness :
  ∃ obj v' w',
    @Create jsontext_laws.codec fixture.store fixture.env
      (fixture.user "user:1") sample.resubmitted fixture.empty
    = (Ok obj, v', w')
    ∧ SecureValue.ResourceVersion obj = Some 1600000000000.
Proof.
eexists _, _, _. split; [vm_compute; reflexivity|].
eapply (@Create_resource_version jsontext_laws.codec fixture.store fixture.env
          (fixture.user "user:1") sample.resubmitted fixture.empty _ _ _).
vm_compute. reflexivity.
Defined.

(** "db-pass", labelled team=a, created next to the three rows: the listing
for team=a gains it at the end. *)
Lemma Create_then_List_witness :
  ∃ obj v' w',
    @Create jsontext_laws.codec fixture.store fixture.env
      (fixture.user "user:1") fixture.db_pass fixture.three_rows
    = (Ok obj, v', w')
    ∧ (@List jsontext_laws.codec (fixture.user "app-b") "ns"
         (Some (fixture.team "a")) w').1
      = match (@List jsontext_laws.codec (fixture.user "app-b") "ns"
                 (Some (fixture.team "a")) fixture.three_rows).1 with
        | Ok objs =>
          Ok (objs ++
              if String.eqb (SecureValue.Namespace fixture.db_pass) "ns"
                 && matches
                      (internalversion.LabelSelector (fixture.team "a")) obj
              then [obj] else [])
        | Err e => Err e
        | Panic msg => Panic msg
        end.
Proof.
eexists _, _, _. split; [vm_compute; reflexivity|].
eapply (@Create_then_List jsontext_laws.codec fixture.store fixture.env
          (fixture.user "user:1") (fixture.user "app-b") fixture.db_pass
          fixture.three_rows _ _ _ "ns" (fixture.team "a")).
vm_compute. reflexivity.
Defined.

(** An update of "api-key", for which the table has no row. *)
Lemma secretStorage_Update_missing_witness :
  @secretStorage_Update jsontext_laws.codec fixture.store fixture.env
    sample.request_ns "api-key" sample.unchanged fixture.one_row
  = (Err (Errorf "not found"), false,
     logged fixture.one_row [CallQuery (request "ns" "api-key")]).
Proof.
apply (@secretStorage_Update_missing jsontext_laws.codec fixture.store
         fixture.env sample.request_ns "api-key" sample.unchanged
         fixture.one_row).
- discriminate.
- intros r [<-|[]] [_ Hname]. discriminate Hname.
Defined.

(** [get] of the empty name on the one-row table. *)
Lemma get_empty_name_witness :
  get (fixture.user "user:1") "ns" "" fixture.one_row
  = (Ok (fixture.row "db-pass" "a"),
     logged fixture.one_row [CallQuery (request "ns" "")]).
Proof.
apply (get_empty_name (fixture.user "user:1") "ns"
         (fixture.row "db-pass" "a") [] fixture.one_row).
reflexivity.
Defined.

(** The earlier [Create] of an object without a name. *)
Lemma earlier_Create_generates_name_witness :
  ∃ obj,
    @earlier.Create jsontext_laws.codec sample.earlier_env
      (fixture.user "user:1") sample.nameless fixture.empty
    = (Ok obj,
       {| table :=
            [@earlier.Create_row jsontext_laws.codec sample.earlier_env
               {| claims.GetUID := "user:1" |} sample.nameless];
          calls :=
            [CallPrintf "CREATE: %s\n";
             CallExec
               (@earlier.Create_row jsontext_laws.codec sample.earlier_env
                  {| claims.GetUID := "user:1" |} sample.nameless)] |})
    ∧ SecureValue.Name obj = "be9x2w7ty".
Proof.
apply (@earlier_Create_generates_name jsontext_laws.codec sample.earlier_env
         (fixture.user "user:1") {| claims.GetUID := "user:1" |}
         sample.nameless fixture.empty); reflexivity.
Defined.

(** The earlier [Create] of "db-pass": the row holds "s3cr3t" as it is. *)
Lemma earlier_Create_stores_plaintext_witness :
  ∃ r row w',
    @earlier.Create jsontext_laws.codec sample.earlier_env
      (fixture.user "user:1") fixture.db_pass fixture.empty = (r, w')
    ∧ calls w' = [CallPrintf "CREATE: %s\n"; CallExec row]
    ∧ secureValueRow.Value row = "s3cr3t"
    ∧ (is_Ok r = true → table w' = [row]).
Proof.
apply (@earlier_Create_stores_plaintext jsontext_laws.codec
         sample.earlier_env (fixture.user "user:1")
         {| claims.GetUID := "user:1" |} fixture.db_pass fixture.empty).
reflexivity.
Defined.

(** Without a limit the three components come back. *)
Lemma usePluginComponents_no_limit_witness :
  pluginComponents.components
    (pluginComponents.usePluginComponents true false false sample.registry
       (sample.limited None))
  = ["A1"; "B1"; "A2"].
Proof.
rewrite (@usePluginComponents_no_limit string true false false sample.registry
           (sample.limited None)).
- vm_compute. reflexivity.
- left. reflexivity.
Defined.

(** With the limit -3 each of the two plugins contributes one item. *)
Lemma usePluginComponents_limit_witness :
  ∃ kept,
    pluginComponents.components
      (pluginComponents.usePluginComponents true false false sample.registry
         (sample.limited (Some (-3))))
    = List.map pluginComponents.component kept
    ∧ kept `sublist_of`
        pluginComponents.registered sample.registry
          "grafana/dashboard/panel/menu"
    ∧ ∀ p,
        pluginComponents.of_plugin p kept
        = Nat.min
            (pluginComponents.of_plugin p
               (pluginComponents.registered sample.registry
                  "grafana/dashboard/panel/menu"))
            1.
Proof.
apply (@usePluginComponents_limit string true false false sample.registry
         (sample.limited (Some (-3))) (-3)).
- reflexivity.
- discriminate.
- reflexivity.
Defined.

(** The same registry under the limits 1 and -3. *)
Lemma usePluginComponents_limit_example :
  pluginComponents.components
    (pluginComponents.usePluginComponents true false false sample.registry
       (sample.limited (Some 1))) = ["A1"; "B1"]
  ∧ pluginComponents.components
      (pluginComponents.usePluginComponents true false false sample.registry
         (sample.limited (Some (-3)))) = ["A1"; "B1"].
Proof. split; vm_compute; reflexivity. Qed.
